(** * sqs-sdk-error: wrappers around managed-service clients and the handler
      that exercises them

    A shallow embedding of the TypeScript sources
      - [src/main/transit/sqs/SqsWrapper.ts]
      - [src/main/transit/ssm/SsmWrapper.ts]
      - [src/main/transit/DynDb.ts]
      - [src/main/transit/s3/S3Wrapper.ts]
      - the lambda handler, [getRecord] and [TestDao]
    Asynchronous code is written in a reader/state/exception monad: the
    reader part is the platform (what the managed services answer, what the
    libraries the wrappers call return, what the process environment holds),
    the state part is what the module-level statics of the wrappers hold,
    together with a trace of every request. *)

From stdpp Require Import gmap strings list sorting.
From Equations Require Import Equations.
From Stdlib Require Import ZArith Lia DecimalString Ascii.

Local Set Warnings "-register-all".

(** ** JavaScript values that cross the wrappers *)

(** A thrown value: the SDK's service exceptions and [new Error(message)]. *)
Record Exception := { errorName : string; errorMessage : string }.

(** [new Error(message)] *)
Definition Error (msg : string) : Exception := {| errorName := "Error"; errorMessage := msg |}.

(** [new TypeError(message)], raised by the runtime itself *)
Definition TypeError (msg : string) : Exception :=
  {| errorName := "TypeError"; errorMessage := msg |}.

(** DynamoDB attribute values ([AttributeValue] of client-dynamodb). A
    number travels as its decimal text. *)
Inductive AttributeValue :=
| AttrS (s : string)
| AttrN (n : string)
| AttrB (b : list Byte.byte)
| AttrSS (ss : list string)
| AttrNS (ns : list string)
| AttrBS (bs : list (list Byte.byte))
| AttrBOOL (b : bool)
| AttrNULL
| AttrL (l : list AttributeValue)
| AttrM (m : gmap string AttributeValue).

(** A number of the language, an IEEE 754 double:
    [± significand × 2 ^ exponent] when it is finite. *)
Inductive Number :=
| NaN
| Infinity (negative : bool)
| Finite (negative : bool) (significand : N) (exponent : Z).

(** The values of the language that records hold. The wrappers hand them
    on and never look inside. *)
Inductive JsValue :=
| JsUndefined
| JsNull
| JsBoolean (b : bool)
| JsNumber (n : Number)
| JsBigInt (z : Z)
| JsString (s : string)
| JsUint8Array (bytes : list Byte.byte)
| JsArray (l : list JsValue)
| JsSet (elements : list JsValue)
| JsObject (m : gmap string JsValue).

(** A JavaScript object used as a record: property name to value. *)
Abbreviation JsRecord := (gmap string JsValue).
Abbreviation Item := (gmap string AttributeValue).

(** [`${n}`] for a non-negative integer counter. *)
Definition numberToString (n : nat) : string := NilZero.string_of_uint (Nat.to_uint n).

(** Truthiness of [string | undefined]: [undefined] and [''] are falsy. *)
Definition truthy (v : option string) : bool :=
  match v with
  | Some s => negb (String.eqb s "")
  | None => false
  end.

(** ** Commands and responses of the SDK clients *)

Record SendMessageBatchRequestEntry := {
  Id : string;
  MessageBody : string;
  MessageGroupId : string;
}.

Record QueryCommandInput := {
  TableName : string;
  IndexName : option string;
  KeyConditionExpression : string;
  ExpressionAttributeNames : gmap string string;
  ExpressionAttributeValues : Item;
}.

Record PutObjectCommandInput := {
  put_Bucket : string;
  put_Key : string;
  put_Body : option string;
  ContentType : option string;
  ContentEncoding : option string;
}.

Record ListObjectsV2CommandInput := {
  Bucket : string;
  MaxKeys : option nat;
  Prefix : option string;
  ContinuationToken : option string;
}.

Inductive Command :=
| SendMessageCommand (body queueUrl : string) (groupId : option string)
| SendMessageBatchCommand (entries : list SendMessageBatchRequestEntry) (queueUrl : string)
| GetParameterCommand (paramName : string) (withDecryption : bool)
| PutItemCommand (table : string) (item : Item)
| GetItemCommand (table : string) (key : Item)
| DeleteItemCommand (table : string) (key : Item)
| QueryCommand (input : QueryCommandInput)
| PutObjectCommand (input : PutObjectCommandInput)
| GetObjectCommand (bucket key : string)
| DeleteObjectCommand (bucket key : string)
| ListObjectsV2Command (input : ListObjectsV2CommandInput)
(** [Model.get(properties)] of dynamodb-onetable, which talks to the table
    on the caller's behalf. *)
| OneTableGet (model : string) (properties : gmap string string).

(** An entry of a bucket listing ([_Object] of client-s3); [LastModified]
    is the date's time value. *)
Record S3Object := {
  Key : option string;
  LastModified : option Z;
}.

(** The body of a fetched object: a readable stream that emits its chunks
    and then either ends or fails. *)
Record Readable := {
  chunks : list string;
  failure : option Exception;
  toString : string;
}.

(** Every member of an SDK output is optional, as in the SDK's typings. *)
Record Response := {
  resp_Item : option Item;
  resp_Items : option (list Item);
  resp_Parameter : option (option string);    (* Parameter?.Value *)
  resp_Contents : option (list S3Object);
  resp_IsTruncated : option bool;
  resp_NextContinuationToken : option string;
  resp_Body : option Readable;
}.

Definition emptyResponse : Response :=
  {| resp_Item := None; resp_Items := None; resp_Parameter := None;
     resp_Contents := None; resp_IsTruncated := None;
     resp_NextContinuationToken := None; resp_Body := None |}.

(** A settled promise. *)
Inductive Settled (A : Type) :=
| Fulfilled (a : A)
| Rejected (e : Exception).
Arguments Fulfilled {A} a.
Arguments Rejected {A} e.

Inductive Client := SQSClient | SSMClient | DynamoDBClient | S3Client.

Record ProcessEnv := {
  TABLE_NAME : string;
  REGION : string;
  QUEUE_URL : string;
  BUCKET_NAME : string;
}.

(** What [JSON.stringify] is applied to in the handler. *)
Inductive Serialisable :=
| OneError (e : Exception)
| ErrorArray (errors : list Exception).

(** ** The platform: everything the code does not decide itself *)

Record Platform := {
  (** the answer to the [n]-th request issued through any client *)
  reply : nat -> Command -> Settled Response;
  (** whether [new XClient(config)] throws *)
  construct : Client -> option Exception;
  (** [getSignedUrl(client, command, { expiresIn })] of s3-request-presigner *)
  getSignedUrl : Command -> nat -> Settled string;
  (** [marshall(data, { removeUndefinedValues: true })] and [unmarshall(item)]
      of util-dynamodb: the attribute map of a record, the record of an
      attribute map, or what the library throws at a value it refuses *)
  marshall : JsRecord -> Settled Item;
  unmarshall : Item -> Settled JsRecord;
  (** the message of the [TypeError] that ends [NanoCache.set(key, undefined)]
      (the text is the runtime's) *)
  NanoCache_undefined : string;
  JSON_parse : string -> Settled JsValue;
  JSON_stringify : Serialisable -> string;
  decodeURIComponent : string -> Settled string;
  env : ProcessEnv;
}.

(** ** The state of the modules *)

Inductive LogEntry :=
| ConsoleWarn (text : string)
| ConsoleError (text : string) (err : Exception)
| ConsoleLog (text : string).

(** What has been observed of a run: each request with its answer, each
    client construction, and each error that entered a [catch] block. *)
Inductive Event :=
| Requested (cmd : Command) (answer : Settled Response)
| Constructed (client : Client) (thrown : option Exception)
| Caught (e : Exception).

Record World := {
  (** trace of the run, oldest first *)
  events : list Event;
  console : list LogEntry;
  (** [SsmWrapper.cache]: a NanoCache, taken with the semantics of a map
      ([get] yields what [set] stored); eviction is the library's. *)
  cache : gmap string string;
  (** whether the static client fields hold a client *)
  ssm : bool;
  ddb : bool;
  s3Client : bool;
}.

Definition with_events (f : list Event -> list Event) (w : World) : World :=
  {| events := f (events w); console := console w; cache := cache w;
     ssm := ssm w; ddb := ddb w; s3Client := s3Client w |}.
Definition with_console (f : list LogEntry -> list LogEntry) (w : World) : World :=
  {| events := events w; console := f (console w); cache := cache w;
     ssm := ssm w; ddb := ddb w; s3Client := s3Client w |}.
Definition with_cache (f : gmap string string -> gmap string string) (w : World) : World :=
  {| events := events w; console := console w; cache := f (cache w);
     ssm := ssm w; ddb := ddb w; s3Client := s3Client w |}.
Definition with_ssm (b : bool) (w : World) : World :=
  {| events := events w; console := console w; cache := cache w;
     ssm := b; ddb := ddb w; s3Client := s3Client w |}.
Definition with_ddb (b : bool) (w : World) : World :=
  {| events := events w; console := console w; cache := cache w;
     ssm := ssm w; ddb := b; s3Client := s3Client w |}.
Definition with_s3Client (b : bool) (w : World) : World :=
  {| events := events w; console := console w; cache := cache w;
     ssm := ssm w; ddb := ddb w; s3Client := b |}.

(** The requests among the events, in order. *)
Definition isRequest (ev : Event) : bool :=
  match ev with Requested _ _ => true | _ => false end.
Definition requests (evs : list Event) : list Event := List.filter isRequest evs.
Definition commandOf (ev : Event) : option Command :=
  match ev with Requested c _ => Some c | _ => None end.
Definition commands (evs : list Event) : list Command := omap commandOf evs.

(** ** Asynchronous computations *)

(** How a computation ends: it returns, it throws, or it is still running
    when the budget of loop iterations given to it is used up. *)
Inductive Completion (A : Type) :=
| Returned (a : A)
| Threw (e : Exception)
| Pending.
Arguments Returned {A} a.
Arguments Threw {A} e.
Arguments Pending {A}.

Definition Async (A : Type) : Type := Platform -> World -> Completion A * World.

Definition ret {A} (a : A) : Async A := fun _ w => (Returned a, w).
Definition throw {A} (e : Exception) : Async A := fun _ w => (Threw e, w).
Definition bind {A B} (m : Async A) (k : A -> Async B) : Async B :=
  fun p w =>
    match m p w with
    | (Returned a, w') => k a p w'
    | (Threw e, w') => (Threw e, w')
    | (Pending, w') => (Pending, w')
    end.

#[global] Instance Async_ret : MRet Async := @ret.
#[global] Instance Async_bind : MBind Async := fun A B k m => bind m k.

(** [try { body } catch (err) { handler }] *)
Definition try_catch {A} (body : Async A) (handler : Exception -> Async A) : Async A :=
  fun p w =>
    match body p w with
    | (Threw e, w') => handler e p (with_events (fun evs => evs ++ [Caught e]) w')
    | r => r
    end.

Definition ask : Async Platform := fun p w => (Returned p, w).
Definition get : Async World := fun _ w => (Returned w, w).
Definition modify (f : World -> World) : Async unit := fun _ w => (Returned tt, f w).
Definition log (entry : LogEntry) : Async unit :=
  modify (with_console (fun c => c ++ [entry])).

(** Settling a promise the platform hands back. *)
Definition settle {A} (s : Settled A) : Async A :=
  match s with
  | Fulfilled a => ret a
  | Rejected e => throw e
  end.

(** [await client.send(command)] *)
Definition send (cmd : Command) : Async Response :=
  fun p w =>
    let answer := reply p (length (requests (events w))) cmd in
    settle answer p (with_events (fun evs => evs ++ [Requested cmd answer]) w).

(** [new XClient(config)] *)
Definition newClient (c : Client) : Async unit :=
  fun p w =>
    let w' := with_events (fun evs => evs ++ [Constructed c (construct p c)]) w in
    match construct p c with
    | Some e => (Threw e, w')
    | None => (Returned tt, w')
    end.

(** ** lodash *)

(** [baseSlice(array, start, end)] *)
Definition baseSlice {A} (array : list A) (start stop : nat) : list A :=
  take (stop - start) (drop start array).

(** The loop of [chunk]:
    [while (index < length) result[resIndex++] = baseSlice(array, index, (index += size))] *)
Equations? chunk_loop {A} (size : nat) (array : list A) (index : nat) : list (list A)
  by wf (length array - index) lt :=
  chunk_loop size array index with decide (index < length array ∧ 0 < size) => {
    | left _ := baseSlice array index (index + size) :: chunk_loop size array (index + size);
    | right _ := [] }.
Proof. lia. Qed.

(** [chunk(array, size)] *)
Definition chunk {A} (array : list A) (size : nat) : list (list A) :=
  if decide (length array = 0 ∨ size < 1) then [] else chunk_loop size array 0.

(** ** SqsWrapper *)

Record MessageAndGroupId := {
  groupId : string;
  message : string;
}.

Module SqsWrapper.

Definition writeMessage (command : Command) : Async unit :=
  send command;; ret tt.

Definition writeMessageToQueue (queueUrl message : string) (groupId : option string)
    : Async unit :=
  let command := SendMessageCommand message queueUrl groupId in
  writeMessage command.

Definition writeMessageBatch (command : Command) : Async unit :=
  send command;; ret tt.

(** The entries of one chunk: [id] starts at 0 and is bumped per message. *)
Definition entriesOf (msgChunk : list MessageAndGroupId) : list SendMessageBatchRequestEntry :=
  imap (fun id msg =>
          {| Id := "msg-" +:+ numberToString id;
             MessageBody := message msg;
             MessageGroupId := groupId msg |}) msgChunk.

(** [for (const msgChunk of chunks) { ... await this.writeMessageBatch(command) }] *)
Fixpoint forEachChunk (queueUrl : string) (chunks : list (list MessageAndGroupId))
    : Async unit :=
  match chunks with
  | [] => ret tt
  | msgChunk :: rest =>
      let entries := entriesOf msgChunk in
      let command := SendMessageBatchCommand entries queueUrl in
      writeMessageBatch command;;
      forEachChunk queueUrl rest
  end.

Definition writeMessageBatchToFifoQueue (queueUrl : string)
    (messages : list MessageAndGroupId) : Async unit :=
  let chunks := chunk messages 10 in
  forEachChunk queueUrl chunks.

End SqsWrapper.

(** ** SsmWrapper *)

Module SsmWrapper.

Definition init : Async unit :=
  newClient SSMClient;;
  modify (with_ssm true).

(** [this.cache.get(paramName)]: the stored value, [null] when absent. *)
Definition cache_get (paramName : string) : Async (option string) :=
  w ← get;
  ret (cache w !! paramName).

(** [this.cache.set(paramName, value)]: a string is stored under the name;
    handed [undefined], the library throws a [TypeError] and stores nothing. *)
Definition cache_set (paramName : string) (value : option string) : Async unit :=
  match value with
  | Some value => modify (with_cache (insert paramName value))
  | None =>
      p ← ask;
      throw (TypeError (NanoCache_undefined p))
  end.

Definition getParam (paramName : string) (decrypt : bool) : Async (option string) :=
  w ← get;
  (if ssm w then ret tt else init);;
  try_catch
    (value ← cache_get paramName;
     if negb (truthy value) then
       let command := GetParameterCommand paramName decrypt in
       result ← send command;
       let value := mjoin (resp_Parameter result) in
       cache_set paramName value;;
       ret value
     else ret value)
    (fun err =>
       log (ConsoleError
              ("Failed to get parameter '" +:+ paramName +:+ "' from parameter store: ") err);;
       throw err).

(** [decrypt = true] when the argument is left out. *)
Definition getParamValue (paramName : string) (decrypt : option bool)
    : Async (option string) :=
  getParam paramName (default true decrypt).

Definition getParamObject (paramName : string) (decrypt : option bool)
    : Async (option JsValue) :=
  try_catch
    (value ← getParam paramName (default true decrypt);
     if truthy value then
       p ← ask;
       parsed ← settle (JSON_parse p (default "" value));
       ret (Some parsed)
     else ret None)
    (fun err =>
       log (ConsoleError ("Failed to parse parameter '" +:+ paramName +:+ "': ") err);;
       throw err).

End SsmWrapper.

(** ** DynDb *)

(** [array.map(callbackfn)] with a callback that may throw: the first
    element it throws at ends the loop. *)
Fixpoint Array_map {A B} (callbackfn : A -> Settled B) (array : list A) : Settled (list B) :=
  match array with
  | [] => Fulfilled []
  | element :: rest =>
      match callbackfn element with
      | Rejected e => Rejected e
      | Fulfilled mapped =>
          match Array_map callbackfn rest with
          | Rejected e => Rejected e
          | Fulfilled others => Fulfilled (mapped :: others)
          end
      end
  end.

Record PkSkRange := {
  pkVal : string;
  skValFrom : string;
  skValTo : string;
}.

(** ['S' | 'N'] *)
Inductive KeyType := TypeS | TypeN.

(** The static method a derived class overrides. *)
Class TableClass := { getTableName : ProcessEnv -> string }.

Module DynDb.

Definition INDEX_NAME : string := "GSI1".

(** [DynDb.getTableName]: "must be overridden in derived class". *)
Definition base : TableClass := {| getTableName := fun _ => "" |}.

Definition deleteKeyFromItem (record : JsRecord) : JsRecord :=
  let record := delete "PK" record in
  let record := delete "SK" record in
  record.

Section Operations.
Context `{TableClass}.

Definition init : Async unit :=
  log (ConsoleWarn "DynamoDB config");;
  w ← get;
  if negb (ddb w) then
    try_catch
      (newClient DynamoDBClient;;
       modify (with_ddb true))
      (fun error => log (ConsoleError "Failed to initialise dynamodb" error))
  else ret tt.

(** [await this.ddb?.send(cmd)] *)
Definition ddb_send (cmd : Command) : Async (option Response) :=
  w ← get;
  if ddb w then result ← send cmd; ret (Some result) else ret None.

Definition putItem (item : JsRecord) : Async unit :=
  p ← ask;
  marshalled ← settle (marshall p item);
  let cmd := PutItemCommand (getTableName (env p)) marshalled in
  ddb_send cmd;;
  ret tt.

Definition getItem (key : JsRecord) : Async (option JsRecord) :=
  p ← ask;
  marshalled ← settle (marshall p key);
  let cmd := GetItemCommand (getTableName (env p)) marshalled in
  result ← ddb_send cmd;
  match result ≫= resp_Item with
  | Some attributes =>
      item ← settle (unmarshall p attributes);
      ret (Some (deleteKeyFromItem item))
  | None => ret None
  end.

Definition byPKQuery (tableName pkVal : string) : QueryCommandInput :=
  {| TableName := tableName;
     IndexName := None;
     KeyConditionExpression := "#PK = :pkVal";
     ExpressionAttributeNames := {[ "#PK" := "PK" ]};
     ExpressionAttributeValues := {[ ":pkVal" := AttrS pkVal ]} |}.

Definition getItemByPK (pkVal : string) : Async (option JsRecord) :=
  p ← ask;
  let cmd := QueryCommand (byPKQuery (getTableName (env p)) pkVal) in
  result ← ddb_send cmd;
  match result ≫= resp_Items with
  | None => ret None
  | Some Items =>
      match Items !! 0%nat with
      | None => ret None
      | Some first =>
          if decide (1 < length Items)%nat then
            throw (Error ("Multiple items (" +:+ numberToString (length Items)
                          +:+ ") found with PK '" +:+ pkVal +:+ "'"))
          else
            item ← settle (unmarshall p first);
            ret (Some (deleteKeyFromItem item))
      end
  end.

(** [if (!result?.Items?.[0]) return [];
     return result.Items.map((item) => unmarshall(item))] *)
Definition unmarshallAll (result : option Response) : Async (list JsRecord) :=
  match result ≫= resp_Items with
  | None => ret []
  | Some Items =>
      match Items !! 0%nat with
      | None => ret []
      | Some _ =>
          p ← ask;
          settle (Array_map (fun item => unmarshall p item) Items)
      end
  end.

Definition getItemsByPK (pkVal : string) : Async (list JsRecord) :=
  p ← ask;
  let cmd := QueryCommand (byPKQuery (getTableName (env p)) pkVal) in
  result ← ddb_send cmd;
  unmarshallAll result.

Definition skBeginningQuery (tableName pkVal skVal : string) : QueryCommandInput :=
  {| TableName := tableName;
     IndexName := None;
     KeyConditionExpression := "#PK = :pkVal AND begins_with(#SK , :skVal)";
     ExpressionAttributeNames := {[ "#PK" := "PK"; "#SK" := "SK" ]};
     ExpressionAttributeValues := {[ ":pkVal" := AttrS pkVal; ":skVal" := AttrS skVal ]} |}.

Definition getItemsWithSKBeginning (pkVal skVal : string) : Async (list JsRecord) :=
  p ← ask;
  let cmd := QueryCommand (skBeginningQuery (getTableName (env p)) pkVal skVal) in
  result ← ddb_send cmd;
  unmarshallAll result.

Definition typed (type : KeyType) (val : string) : AttributeValue :=
  match type with
  | TypeN => AttrN val
  | TypeS => AttrS val
  end.

(** The query of [getItemsWithSKBetween], its defaults already resolved. *)
Definition skBetweenQuery (tableName : string) (keyVals : PkSkRange)
    (partitionKeyName sortKeyName : string) (partitionKeyType sortKeyType : KeyType)
    (indexName : option string) : QueryCommandInput :=
  let values : Item := {[ ":pkVal" := typed partitionKeyType (pkVal keyVals) ]} in
  let values := <[ ":skValFrom" := typed sortKeyType (skValFrom keyVals) ]> values in
  let values := <[ ":skValTo" := typed sortKeyType (skValTo keyVals) ]> values in
  {| TableName := tableName;
     IndexName := if truthy indexName then indexName else None;
     KeyConditionExpression := "#PK = :pkVal AND #SK BETWEEN :skValFrom AND :skValTo";
     ExpressionAttributeNames := {[ "#PK" := partitionKeyName; "#SK" := sortKeyName ]};
     ExpressionAttributeValues := values |}.

Definition getItemsWithSKBetween (keyVals : PkSkRange)
    (partitionKeyName sortKeyName : option string)
    (partitionKeyType sortKeyType : option KeyType)
    (indexName : option string) : Async (list JsRecord) :=
  p ← ask;
  let queryParams :=
    skBetweenQuery (getTableName (env p)) keyVals
      (default "PK" partitionKeyName) (default "SK" sortKeyName)
      (default TypeS partitionKeyType) (default TypeS sortKeyType) indexName in
  let command := QueryCommand queryParams in
  result ← ddb_send command;
  unmarshallAll result.

Definition bySKQuery (tableName skVal : string) : QueryCommandInput :=
  {| TableName := tableName;
     IndexName := Some INDEX_NAME;
     KeyConditionExpression := "#SK = :skVal";
     ExpressionAttributeNames := {[ "#SK" := "SK" ]};
     ExpressionAttributeValues := {[ ":skVal" := AttrS skVal ]} |}.

Definition getItemBySK (skVal : string) : Async (option JsRecord) :=
  p ← ask;
  let cmd := QueryCommand (bySKQuery (getTableName (env p)) skVal) in
  result ← ddb_send cmd;
  match (result ≫= resp_Items) ≫= (fun Items => Items !! 0%nat) with
  | None => ret None
  | Some first =>
      item ← settle (unmarshall p first);
      ret (Some (deleteKeyFromItem item))
  end.

Definition pkPrefixAndSKQuery (tableName pkPrefix skVal : string) : QueryCommandInput :=
  {| TableName := tableName;
     IndexName := Some INDEX_NAME;
     KeyConditionExpression := "#SK = :skVal and begins_with(#PK, :pkPrefix)";
     ExpressionAttributeNames := {[ "#SK" := "SK"; "#PK" := "PK" ]};
     ExpressionAttributeValues := {[ ":skVal" := AttrS skVal; ":pkPrefix" := AttrS pkPrefix ]} |}.

Definition getAllByPKPrefixAndSK (pkPrefix skVal : string) : Async (list JsRecord) :=
  p ← ask;
  let cmd := QueryCommand (pkPrefixAndSKQuery (getTableName (env p)) pkPrefix skVal) in
  result ← ddb_send cmd;
  items ←
    match result ≫= resp_Items with
    | Some Items =>
        items ← settle (Array_map (fun rawItem =>
                                     match unmarshall p rawItem with
                                     | Fulfilled item => Fulfilled (deleteKeyFromItem item)
                                     | Rejected e => Rejected e
                                     end) Items);
        ret (Some items)
    | None => ret None
    end;
  ret (default [] items).

Definition deleteItem (key : JsRecord) : Async unit :=
  p ← ask;
  marshalled ← settle (marshall p key);
  let cmd := DeleteItemCommand (getTableName (env p)) marshalled in
  ddb_send cmd;;
  ret tt.

End Operations.

End DynDb.

(** [TestDynDb.getTableName] returns [process.env.TABLE_NAME]. *)
Definition TestDynDb : TableClass := {| getTableName := TABLE_NAME |}.

(** ** Built-ins of the language *)

(** [s.includes(searchString)] *)
Fixpoint includes (s searchString : string) : bool :=
  if String.prefix searchString s then true
  else
    match s with
    | EmptyString => false
    | String _ rest => includes rest searchString
    end.

(** [s.replace(/\+/g, ' ')] *)
Fixpoint replacePlus (s : string) : string :=
  match s with
  | EmptyString => EmptyString
  | String c rest =>
      String (if Ascii.eqb c "+"%char then " "%char else c) (replacePlus rest)
  end.

(** [Array.prototype.sort(comparefn)], taken as an insertion sort: each
    element in turn is moved left past every element of the already placed
    prefix that [comparefn] ranks after it ([comparefn(tmp, element) > 0]),
    and stops at the first one that is not. The prefix is kept with its
    last element first. The language fixes the outcome only for a consistent
    comparison function, which [sortFilesByDate] is not (it answers 1 both
    ways for equal dates and 0 whenever a date is missing); what is proved
    of the outcome below is the order by date and the elements, not where
    ties end up. *)
Fixpoint placeElement {A} (comparefn : A -> A -> Z) (element : A) (placed : list A)
    : list A :=
  match placed with
  | [] => [element]
  | tmp :: before =>
      if (0 <? comparefn tmp element)%Z
      then tmp :: placeElement comparefn element before
      else element :: tmp :: before
  end.

Definition Array_sort {A} (comparefn : A -> A -> Z) (array : list A) : list A :=
  reverse (fold_left (fun placed element => placeElement comparefn element placed) array []).

(** ** S3Wrapper *)

(** Returns a filter function that removes any file whose name contains
    [excludeFilenamesContaining]. *)
Definition filterResultsFiles (excludeFilenamesContaining : string) (file : S3Object) : bool :=
  match Key file with
  | None => false
  | Some key =>
      if String.eqb key "" then false
      else negb (includes key excludeFilenamesContaining)
  end.

(** Sorts the files by [LastModified], putting the latest at index 0. *)
Definition sortFilesByDate (left right : S3Object) : Z :=
  match LastModified left, LastModified right with
  | Some l, Some r => if (r <? l)%Z then (-1)%Z else 1%Z
  | _, _ => 0%Z
  end.

Definition filterFunction : S3Object -> bool := filterResultsFiles "result_".

(** The locals of [getListOfFileKeys]. *)
Record Locals := {
  listObjectsParams : ListObjectsV2CommandInput;
  results : list string;
  isTruncated : bool;
}.

Module S3Wrapper.

Definition initialise : Async unit :=
  w ← get;
  if s3Client w then ret tt
  else
    newClient S3Client;;
    modify (with_s3Client true).

Definition getS3 : Async unit := initialise.

Definition retrieveFileData (files : list S3Object) (bucket : string) : Async string :=
  let fileKey := files !! 0%nat ≫= Key in
  if negb (truthy fileKey) then throw (Error "No file found")
  else
    let fileKey := default "" fileKey in
    getS3;;
    let command := GetObjectCommand bucket fileKey in
    data ← send command;
    match resp_Body data with
    | None => throw (Error ("No data found in file " +:+ fileKey))
    | Some Body => ret (toString Body)
    end.

Definition retrieveSortedFileList (bucket : string) : Async (option (list S3Object)) :=
  let listObjectsParams :=
    {| Bucket := bucket; MaxKeys := None; Prefix := None; ContinuationToken := None |} in
  getS3;;
  let command := ListObjectsV2Command listObjectsParams in
  files ← send command;
  let filteredFiles := List.filter filterFunction <$> resp_Contents files in
  let filteredFiles := Array_sort sortFilesByDate <$> filteredFiles in
  ret filteredFiles.

(** [return s3.send(command)] leaves the [try] block with the promise not
    yet settled: the [catch] block sees only what [getS3()] and the
    construction of the command throw, a rejected request goes to the
    caller directly. *)
Definition createFileInBucket (bucket : string) (contents : option string)
    (filename : string) (contentType encoding : option string) : Async Response :=
  let putObjectParams :=
    {| put_Bucket := bucket;
       put_Key := filename;
       put_Body := contents;
       ContentType := Some (default "application/json" contentType);
       ContentEncoding := encoding |} in
  command ← try_catch
    (getS3;;
     ret (PutObjectCommand putObjectParams))
    (fun error =>
       log (ConsoleError "PutObject failed" error);;
       throw error);
  send command.

(** The promise around the stream: [data] events are collected, [end]
    resolves with their concatenation, [error] rejects. *)
Definition readAll (stream : option Readable) : Async string :=
  match stream with
  | None => throw (TypeError "Cannot read properties of undefined (reading 'on')")
  | Some stream =>
      match failure stream with
      | Some e => throw e
      | None => ret (String.concat "" (chunks stream))
      end
  end.

Definition getFileByName (bucket name : string) : Async string :=
  getS3;;
  let command := GetObjectCommand bucket name in
  data ← send command;
  let stream := resp_Body data in
  readAll stream.

Definition deleteFileByName (bucket name : string) : Async Response :=
  getS3;;
  let command := DeleteObjectCommand bucket name in
  send command.

(** [operation] is ['get' | 'put']; [expiresSeconds = 3600] by default. *)
Definition getSignedUrlForFile (bucket filename : string) (operationIsGet : bool)
    (expiresSeconds : option nat) : Async string :=
  let putObjectParams :=
    {| put_Bucket := bucket; put_Key := filename; put_Body := None;
       ContentType := None; ContentEncoding := None |} in
  getS3;;
  let command :=
    if operationIsGet then GetObjectCommand bucket filename
    else PutObjectCommand putObjectParams in
  p ← ask;
  settle (getSignedUrl p command (default 3600%nat expiresSeconds)).

(** [command] is built once, before the loop, and keeps a reference to
    [listObjectsParams]: what a [send] transmits is the object as it is
    at that moment, with the token the loop body has stored in it. *)
Definition command (locals : Locals) : Command :=
  ListObjectsV2Command (listObjectsParams locals).

Definition setContinuationToken (token : option string) (params : ListObjectsV2CommandInput)
    : ListObjectsV2CommandInput :=
  {| Bucket := Bucket params; MaxKeys := MaxKeys params; Prefix := Prefix params;
     ContinuationToken := token |}.

(** [result.Contents?.forEach((file) => { if (file.Key) results.push(file.Key) })] *)
Definition pushKeys (Contents : option (list S3Object)) (results : list string) : list string :=
  results ++ omap (fun file => if truthy (Key file) then Key file else None)
                  (default [] Contents).

(** [while (isTruncated) { ... }], with a budget of iterations. *)
Fixpoint whileTruncated (budget : nat) (locals : Locals) : Async (list string) :=
  if isTruncated locals then
    match budget with
    | O => fun _ w => (Pending, w)
    | S budget =>
        result ← send (command locals);
        let locals :=
          {| isTruncated := default false (resp_IsTruncated result);
             listObjectsParams :=
               setContinuationToken (resp_NextContinuationToken result)
                                    (listObjectsParams locals);
             results := pushKeys (resp_Contents result) (results locals) |} in
        whileTruncated budget locals
    end
  else ret (results locals).

Definition getListOfFileKeys (budget : nat) (bucket : string) (prefix : option string)
    : Async (list string) :=
  let listObjectsParams :=
    {| Bucket := bucket; MaxKeys := Some 100%nat; Prefix := prefix;
       ContinuationToken := None |} in
  getS3;;
  whileTruncated budget
    {| listObjectsParams := listObjectsParams; results := []; isTruncated := true |}.

Definition stripS3ObjectKeyOfSpecialChars (s3ObjectKey : string) : Async string :=
  p ← ask;
  settle (decodeURIComponent p (replacePlus s3ObjectKey)).

End S3Wrapper.

(** ** The handler and what it calls *)

Definition getRecord : Async Response :=
  p ← ask;
  let command :=
    GetItemCommand (TABLE_NAME (env p))
                   {[ "pk" := AttrS "something"; "sk" := AttrS "else" ]} in
  send command.

Module TestDao.

Definition getTree : Async Response :=
  send (OneTableGet "TestModel" {[ "pk" := "test"; "sk" := "test" ]}).

End TestDao.

(** The top level of the handler's module:
    [try { await SsmWrapper.getParamValue('someparam') } catch (err) {}] *)
Definition onLoad : Async unit :=
  try_catch
    (SsmWrapper.getParamValue "someparam" None;; ret tt)
    (fun err => ret tt).

Record APIGatewayProxyResult := {
  statusCode : nat;
  headers : gmap string string;
  body : string;
}.

Definition handler : Async APIGatewayProxyResult :=
  p ← ask;
  let errors : list Exception := [] in
  errors ← try_catch
    (getRecord;; ret errors)
    (fun err => ret (errors ++ [err]));
  errors ← try_catch
    (TestDao.getTree;; ret errors)
    (fun err =>
       let errors := errors ++ [err] in
       log (ConsoleLog (JSON_stringify p (OneError err)));;
       ret errors);
  errors ← try_catch
    (S3Wrapper.createFileInBucket (BUCKET_NAME (env p)) (Some "some text") "file.txt"
                                  (Some "text/plain") None;;
     ret errors)
    (fun err => ret (errors ++ [err]));
  errors ← try_catch
    (SqsWrapper.writeMessageBatchToFifoQueue (QUEUE_URL (env p))
       [ {| groupId := "group1"; message := "hello" |} ];;
     ret errors)
    (fun err => ret (errors ++ [err]));
  if decide (0 < length errors)%nat then
    ret {| statusCode := 400;
           headers := {[ "Content-Type" := "text/plain" ]};
           body := JSON_stringify p (ErrorArray errors) |}
  else
    ret {| statusCode := 200;
           headers := {[ "Content-Type" := "text/plain" ]};
           body := "Hello, World! Your request was received" |}.

(** ** The public operations of the wrappers *)

(** One constructor per public static method that reaches a client, with
    the arguments of the call; [perform] runs it and drops its result. *)
Inductive Operation :=
| Sqs_writeMessageToQueue (queueUrl message : string) (groupId : option string)
| Sqs_writeMessageBatchToFifoQueue (queueUrl : string) (messages : list MessageAndGroupId)
| Ssm_init
| Ssm_getParamValue (paramName : string) (decrypt : option bool)
| Ssm_getParamObject (paramName : string) (decrypt : option bool)
| DynDb_init
| DynDb_putItem (item : JsRecord)
| DynDb_getItem (key : JsRecord)
| DynDb_getItemByPK (pkVal : string)
| DynDb_getItemsByPK (pkVal : string)
| DynDb_getItemsWithSKBeginning (pkVal skVal : string)
| DynDb_getItemsWithSKBetween (keyVals : PkSkRange)
    (partitionKeyName sortKeyName : option string)
    (partitionKeyType sortKeyType : option KeyType) (indexName : option string)
| DynDb_getItemBySK (skVal : string)
| DynDb_getAllByPKPrefixAndSK (pkPrefix skVal : string)
| DynDb_deleteItem (key : JsRecord)
| S3_getS3
| S3_retrieveFileData (files : list S3Object) (bucket : string)
| S3_retrieveSortedFileList (bucket : string)
| S3_createFileInBucket (bucket : string) (contents : option string) (filename : string)
    (contentType encoding : option string)
| S3_getFileByName (bucket name : string)
| S3_deleteFileByName (bucket name : string)
| S3_getSignedUrlForFile (bucket filename : string) (operationIsGet : bool)
    (expiresSeconds : option nat)
| S3_getListOfFileKeys (budget : nat) (bucket : string) (prefix : option string)
| S3_stripS3ObjectKeyOfSpecialChars (s3ObjectKey : string).

Definition void {A} (m : Async A) : Async unit := m;; ret tt.

Definition perform `{TableClass} (op : Operation) : Async unit :=
  match op with
  | Sqs_writeMessageToQueue queueUrl message groupId =>
      SqsWrapper.writeMessageToQueue queueUrl message groupId
  | Sqs_writeMessageBatchToFifoQueue queueUrl messages =>
      SqsWrapper.writeMessageBatchToFifoQueue queueUrl messages
  | Ssm_init => SsmWrapper.init
  | Ssm_getParamValue paramName decrypt => void (SsmWrapper.getParamValue paramName decrypt)
  | Ssm_getParamObject paramName decrypt => void (SsmWrapper.getParamObject paramName decrypt)
  | DynDb_init => DynDb.init
  | DynDb_putItem item => DynDb.putItem item
  | DynDb_getItem key => void (DynDb.getItem key)
  | DynDb_getItemByPK pkVal => void (DynDb.getItemByPK pkVal)
  | DynDb_getItemsByPK pkVal => void (DynDb.getItemsByPK pkVal)
  | DynDb_getItemsWithSKBeginning pkVal skVal => void (DynDb.getItemsWithSKBeginning pkVal skVal)
  | DynDb_getItemsWithSKBetween keyVals pkName skName pkType skType indexName =>
      void (DynDb.getItemsWithSKBetween keyVals pkName skName pkType skType indexName)
  | DynDb_getItemBySK skVal => void (DynDb.getItemBySK skVal)
  | DynDb_getAllByPKPrefixAndSK pkPrefix skVal => void (DynDb.getAllByPKPrefixAndSK pkPrefix skVal)
  | DynDb_deleteItem key => DynDb.deleteItem key
  | S3_getS3 => S3Wrapper.getS3
  | S3_retrieveFileData files bucket => void (S3Wrapper.retrieveFileData files bucket)
  | S3_retrieveSortedFileList bucket => void (S3Wrapper.retrieveSortedFileList bucket)
  | S3_createFileInBucket bucket contents filename contentType encoding =>
      void (S3Wrapper.createFileInBucket bucket contents filename contentType encoding)
  | S3_getFileByName bucket name => void (S3Wrapper.getFileByName bucket name)
  | S3_deleteFileByName bucket name => void (S3Wrapper.deleteFileByName bucket name)
  | S3_getSignedUrlForFile bucket filename operationIsGet expiresSeconds =>
      void (S3Wrapper.getSignedUrlForFile bucket filename operationIsGet expiresSeconds)
  | S3_getListOfFileKeys budget bucket prefix =>
      void (S3Wrapper.getListOfFileKeys budget bucket prefix)
  | S3_stripS3ObjectKeyOfSpecialChars s3ObjectKey =>
      void (S3Wrapper.stripS3ObjectKeyOfSpecialChars s3ObjectKey)
  end.

(** The two operations built around a loop. *)
Definition loops (op : Operation) : bool :=
  match op with
  | Sqs_writeMessageBatchToFifoQueue _ _ | S3_getListOfFileKeys _ _ _ => true
  | _ => false
  end.

(** ** Vocabulary of the properties *)

(** The failure an event records, if any. *)
Definition failureOf (ev : Event) : option Exception :=
  match ev with
  | Requested _ (Rejected e) => Some e
  | Requested _ (Fulfilled _) => None
  | Constructed _ thrown => thrown
  | Caught e => Some e
  end.
Definition failures (evs : list Event) : list Exception := omap failureOf evs.

(** The events a run from [w] added to reach [w']. *)
Definition since (w w' : World) : list Event := drop (length (events w)) (events w').

(** A computation that passes every failure it meets on to its caller:
    whatever a request was rejected with, a constructor threw or a [catch]
    block received is what the computation throws. *)
Definition Propagates {A} (m : Async A) : Prop :=
  ∀ p w, ∃ new, events (m p w).2 = events w ++ new ∧
                ∀ e, e ∈ failures new -> (m p w).1 = Threw e.

(** A computation that issues at most [n] requests. *)
Definition AtMost {A} (n : nat) (m : Async A) : Prop :=
  ∀ p w, ∃ new, events (m p w).2 = events w ++ new ∧ length (requests new) ≤ n.

(** A computation that returns or throws. *)
Definition Settles {A} (m : Async A) : Prop :=
  ∀ p w, (m p w).1 ≠ Pending.

(** A [catch] block that ends by throwing what it received. *)
Definition Rethrows {A} (handler : Exception -> Async A) : Prop :=
  ∀ e p w, (handler e p w).1 = Threw e.

Definition thrown {A} (c : Completion A) : option Exception :=
  match c with
  | Threw e => Some e
  | _ => None
  end.

Definition msgIds : list string :=
  ["msg-0"; "msg-1"; "msg-2"; "msg-3"; "msg-4"; "msg-5"; "msg-6"; "msg-7"; "msg-8"; "msg-9"].

(** How many requests an operation may issue: one per chunk, one per
    iteration of the listing loop, one otherwise. *)
Definition requestBound (op : Operation) : nat :=
  match op with
  | Sqs_writeMessageBatchToFifoQueue _ messages => length (chunk messages 10)
  | S3_getListOfFileKeys budget _ _ => budget
  | _ => 1
  end.

(** The library of the sample platforms. The records of the samples hold
    strings, booleans and [null], which [marshall] and [unmarshall] carry
    over one for one; a record that holds anything else is refused. *)
Definition plainAttribute (v : JsValue) : option AttributeValue :=
  match v with
  | JsString s => Some (AttrS s)
  | JsBoolean b => Some (AttrBOOL b)
  | JsNull => Some AttrNULL
  | _ => None
  end.

Definition plainValue (v : AttributeValue) : option JsValue :=
  match v with
  | AttrS s => Some (JsString s)
  | AttrBOOL b => Some (JsBoolean b)
  | AttrNULL => Some JsNull
  | _ => None
  end.

Definition plainly {A B} (convert : A -> option B) (data : gmap string A)
    : Settled (gmap string B) :=
  if forallb (fun member => bool_decide (is_Some (convert member.2))) (map_to_list data)
  then Fulfilled (omap convert data)
  else Rejected (Error "Unsupported type passed").

(** A platform that fulfils every request with an empty output and on which
    every constructor succeeds, and the state of freshly loaded modules. *)
Definition obliging : Platform :=
  {| reply := fun _ _ => Fulfilled emptyResponse;
     construct := fun _ => None;
     getSignedUrl := fun _ _ => Fulfilled "https://bucket/file?X-Amz-Signature=0";
     marshall := plainly plainAttribute;
     unmarshall := plainly plainValue;
     NanoCache_undefined := "Cannot read properties of undefined (reading 'length')";
     JSON_parse := fun _ => Fulfilled JsNull;
     JSON_stringify := fun _ => "[]";
     decodeURIComponent := fun s => Fulfilled s;
     env := {| TABLE_NAME := "table"; REGION := "eu-west-1";
               QUEUE_URL := "https://queue.fifo"; BUCKET_NAME := "bucket" |} |}.

Definition fresh : World :=
  {| events := []; console := []; cache := ∅; ssm := false; ddb := false;
     s3Client := false |}.

(** The world a [catch] block of the handler leaves: the error it received
    is on the trace, and on the console when the block logs it. *)
Definition afterCatch {A} (entry : Exception -> option LogEntry) (r : Completion A * World)
    : World :=
  match r.1 with
  | Threw e =>
      let w := with_events (fun evs => evs ++ [Caught e]) r.2 in
      match entry e with
      | Some line => with_console (fun c => c ++ [line]) w
      | None => w
      end
  | _ => r.2
  end.

(** A stored record with its key attributes and one of its own, the answer
    of a query that finds [items], and a platform that gives this answer. *)
Definition profile : Item :=
  {[ "PK" := AttrS "user#1"; "SK" := AttrS "profile"; "name" := AttrS "Ann" ]}.

(** The same record as the caller holds it. *)
Definition profileRecord : JsRecord :=
  {[ "PK" := JsString "user#1"; "SK" := JsString "profile"; "name" := JsString "Ann" ]}.

Definition found (items : list Item) : Response :=
  {| resp_Item := None; resp_Items := Some items; resp_Parameter := None;
     resp_Contents := None; resp_IsTruncated := None;
     resp_NextContinuationToken := None; resp_Body := None |}.

Definition answering (r : Response) : Platform :=
  {| reply := fun _ _ => Fulfilled r;
     construct := construct obliging;
     getSignedUrl := getSignedUrl obliging;
     marshall := marshall obliging;
     unmarshall := unmarshall obliging;
     NanoCache_undefined := NanoCache_undefined obliging;
     JSON_parse := JSON_parse obliging;
     JSON_stringify := JSON_stringify obliging;
     decodeURIComponent := decodeURIComponent obliging;
     env := env obliging |}.

(** The state once [TestDynDb.init()] has run at module load. *)
Definition initialised : World := with_ddb true fresh.

(** *** Reading a key condition *)

(** The characters of a word of an expression: letters, digits and [_],
    with [#] at the head of the placeholder of an attribute name and [:] at
    the head of the placeholder of a value. *)
Definition wordChar (c : ascii) : bool :=
  let n := nat_of_ascii c in
  ((48 <=? n) && (n <=? 57)) || ((65 <=? n) && (n <=? 90)) || ((97 <=? n) && (n <=? 122))
  || (n =? 95) || (n =? 35) || (n =? 58).

(** The words of an expression, in order; [word] is the one being read,
    its characters last first. *)
Fixpoint wordsFrom (expression : string) (word : list ascii) : list string :=
  let finished :=
    match word with
    | [] => []
    | _ => [String.string_of_list_ascii (reverse word)]
    end in
  match expression with
  | EmptyString => finished
  | String c rest =>
      if wordChar c then wordsFrom rest (c :: word)
      else finished ++ wordsFrom rest []
  end.

Definition words (expression : string) : list string := wordsFrom expression [].

Definition lowerCase (s : string) : string :=
  String.string_of_list_ascii
    ((fun c => let n := nat_of_ascii c in
               if (65 <=? n) && (n <=? 90) then ascii_of_nat (n + 32) else c)
       <$> String.list_ascii_of_string s).

(** The operators of a key condition that are written as words. *)
Definition isOperator (word : string) : bool :=
  bool_decide (lowerCase word ∈ ["and"; "between"; "begins_with"]).

(** The attributes a query addresses, in the order its key condition names
    them: a word that is neither an operator nor the placeholder of a value
    names an attribute, directly or, when it starts with [#], through
    [ExpressionAttributeNames] ([None] for a placeholder left undefined). *)
Definition addressed (q : QueryCommandInput) : list (option string) :=
  omap (fun word =>
          if isOperator word then None
          else if String.prefix ":" word then None
          else if String.prefix "#" word then Some (ExpressionAttributeNames q !! word)
          else Some (Some word))
       (words (KeyConditionExpression q)).

(** A command that is a query with the key condition [condition], which
    addresses the attributes [attributes] and no others, every name the
    query defines being one of them, and which goes to the index [index]
    (to the table itself when there is none). *)
Definition keySchema (condition : string) (attributes : list string) (index : option string)
    (cmd : Command) : Prop :=
  ∃ q, cmd = QueryCommand q ∧
       KeyConditionExpression q = condition ∧
       addressed q = Some <$> attributes ∧
       (∀ placeholder name,
          ExpressionAttributeNames q !! placeholder = Some name -> name ∈ attributes) ∧
       IndexName q = index.

(** The operations of [DynDb] that issue a query. *)
Definition queries (op : Operation) : bool :=
  match op with
  | DynDb_getItemByPK _ | DynDb_getItemsByPK _ | DynDb_getItemsWithSKBeginning _ _
  | DynDb_getItemsWithSKBetween _ _ _ _ _ _ | DynDb_getItemBySK _
  | DynDb_getAllByPKPrefixAndSK _ _ => true
  | _ => false
  end.

(** The keys a page of a listing shows: those of its objects that have a
    non-empty one. *)
Definition keysOf (page : Response) : list string :=
  omap (fun file =>
          match Key file with
          | Some key => if String.eqb key "" then None else Some key
          | None => None
          end)
       (default [] (resp_Contents page)).

(** The requests that fetch a sequence of pages one after the other: the
    first as given, each further one with the continuation token the page
    before it named. *)
Fixpoint pageRequests (params : ListObjectsV2CommandInput) (pages : list Response)
    : list Command :=
  match pages with
  | [] => []
  | page :: rest =>
      ListObjectsV2Command params ::
      pageRequests
        {| Bucket := Bucket params; MaxKeys := MaxKeys params; Prefix := Prefix params;
           ContinuationToken := resp_NextContinuationToken page |} rest
  end.

(** An object that [retrieveSortedFileList] keeps: it has a key, the key is
    not empty and does not contain [result_]. *)
Definition retained (file : S3Object) : Prop :=
  ∃ key, Key file = Some key ∧ key ≠ "" ∧
         ¬ ∃ before after, key = before +:+ "result_" +:+ after.

(** Most recently modified first, among the objects that carry a date. *)
Definition latestFirst (files : list S3Object) : Prop :=
  ∀ i j fi fj di dj, (i < j)%nat ->
    files !! i = Some fi -> files !! j = Some fj ->
    LastModified fi = Some di -> LastModified fj = Some dj -> (dj ≤ di)%Z.

(** A listing of three objects, the second without a date, the third more
    recent than the first; and a listing of three dated objects. *)
Definition undatedBetween : list S3Object :=
  [ {| Key := Some "a.csv"; LastModified := Some 1%Z |};
    {| Key := Some "x.csv"; LastModified := None |};
    {| Key := Some "b.csv"; LastModified := Some 2%Z |} ].

Definition datedListing : list S3Object :=
  [ {| Key := Some "a.csv"; LastModified := Some 1%Z |};
    {| Key := Some "result_a.csv"; LastModified := Some 5%Z |};
    {| Key := Some "b.csv"; LastModified := Some 2%Z |};
    {| Key := None; LastModified := Some 7%Z |};
    {| Key := Some "c.csv"; LastModified := Some 2%Z |} ].

Definition listed (files : list S3Object) : Response :=
  {| resp_Item := None; resp_Items := None; resp_Parameter := None;
     resp_Contents := Some files; resp_IsTruncated := None;
     resp_NextContinuationToken := None; resp_Body := None |}.

(** A computation that leaves the trace alone. *)
Definition Silent {A} (m : Async A) : Prop :=
  ∀ p w, events (m p w).2 = events w.

Definition outOfMemory : Exception :=
  {| errorName := "RangeError"; errorMessage := "Invalid string length" |}.

(** A platform on which the DynamoDB client cannot be constructed. *)
Definition noDynamo : Platform :=
  {| reply := reply obliging;
     construct := fun c => match c with DynamoDBClient => Some outOfMemory | _ => None end;
     getSignedUrl := getSignedUrl obliging;
     marshall := marshall obliging;
     unmarshall := unmarshall obliging;
     NanoCache_undefined := NanoCache_undefined obliging;
     JSON_parse := JSON_parse obliging;
     JSON_stringify := JSON_stringify obliging;
     decodeURIComponent := decodeURIComponent obliging;
     env := env obliging |}.

(** A listing in two pages, and a service that serves the second page to
    the request that carries a continuation token. *)
Definition firstPage : Response :=
  {| resp_Item := None; resp_Items := None; resp_Parameter := None;
     resp_Contents := Some [ {| Key := Some "a.csv"; LastModified := Some 1%Z |};
                             {| Key := Some "b.csv"; LastModified := Some 2%Z |} ];
     resp_IsTruncated := Some true;
     resp_NextContinuationToken := Some "page-2"; resp_Body := None |}.

Definition secondPage : Response :=
  {| resp_Item := None; resp_Items := None; resp_Parameter := None;
     resp_Contents := Some [ {| Key := Some "c.csv"; LastModified := Some 3%Z |} ];
     resp_IsTruncated := Some false;
     resp_NextContinuationToken := None; resp_Body := None |}.

Definition paging : Platform :=
  {| reply := fun _ cmd =>
       match cmd with
       | ListObjectsV2Command input =>
           match ContinuationToken input with
           | None => Fulfilled firstPage
           | Some _ => Fulfilled secondPage
           end
       | _ => Fulfilled emptyResponse
       end;
     construct := construct obliging;
     getSignedUrl := getSignedUrl obliging;
     marshall := marshall obliging;
     unmarshall := unmarshall obliging;
     NanoCache_undefined := NanoCache_undefined obliging;
     JSON_parse := JSON_parse obliging;
     JSON_stringify := JSON_stringify obliging;
     decodeURIComponent := decodeURIComponent obliging;
     env := env obliging |}.

(** A platform on which the queue rejects what it is sent. *)
Definition queueDown : Exception :=
  {| errorName := "QueueDoesNotExist"; errorMessage := "The specified queue does not exist." |}.

Definition noQueue : Platform :=
  {| reply := fun _ cmd =>
       match cmd with
       | SendMessageBatchCommand _ _ | SendMessageCommand _ _ _ => Rejected queueDown
       | _ => Fulfilled emptyResponse
       end;
     construct := construct obliging;
     getSignedUrl := getSignedUrl obliging;
     marshall := marshall obliging;
     unmarshall := unmarshall obliging;
     NanoCache_undefined := NanoCache_undefined obliging;
     JSON_parse := JSON_parse obliging;
     JSON_stringify := fun v =>
       match v with
       | ErrorArray errors => String.concat "," (errorName <$> errors)
       | OneError e => errorName e
       end;
     decodeURIComponent := decodeURIComponent obliging;
     env := env obliging |}.

(** A service whose listings never end. *)
Definition endless : Platform :=
  {| reply := fun _ _ => Fulfilled firstPage;
     construct := construct obliging;
     getSignedUrl := getSignedUrl obliging;
     marshall := marshall obliging;
     unmarshall := unmarshall obliging;
     NanoCache_undefined := NanoCache_undefined obliging;
     JSON_parse := JSON_parse obliging;
     JSON_stringify := JSON_stringify obliging;
     decodeURIComponent := decodeURIComponent obliging;
     env := env obliging |}.

(** The operations of [DynDb] that read or write the table. *)
Definition tableOperation (op : Operation) : bool :=
  match op with
  | DynDb_putItem _ | DynDb_getItem _ | DynDb_deleteItem _ => true
  | _ => queries op
  end.

(** The table a command addresses. *)
Definition tableOf (cmd : Command) : option string :=
  match cmd with
  | PutItemCommand table _ | GetItemCommand table _ | DeleteItemCommand table _ => Some table
  | QueryCommand input => Some (TableName input)
  | _ => None
  end.

(** Constructions of a client among the events. *)
Definition isConstruction (ev : Event) : bool :=
  match ev with Constructed _ _ => true | _ => false end.

(** The answer of [GetParameter] for a parameter with the value [value]. *)
Definition valued (value : string) : Response :=
  {| resp_Item := None; resp_Items := None; resp_Parameter := Some (Some value);
     resp_Contents := None; resp_IsTruncated := None;
     resp_NextContinuationToken := None; resp_Body := None |}.

(** The answer of [GetItem] when the item exists. *)
Definition holding (item : Item) : Response :=
  {| resp_Item := Some item; resp_Items := None; resp_Parameter := None;
     resp_Contents := None; resp_IsTruncated := None;
     resp_NextContinuationToken := None; resp_Body := None |}.

(** A service that serves the first page of a listing and rejects the
    request for the second. *)
Definition slowDown : Exception :=
  {| errorName := "SlowDown"; errorMessage := "Please reduce your request rate." |}.

Definition tornListing : Platform :=
  {| reply := fun _ cmd =>
       match cmd with
       | ListObjectsV2Command input =>
           match ContinuationToken input with
           | None => Fulfilled firstPage
           | Some _ => Rejected slowDown
           end
       | _ => Fulfilled emptyResponse
       end;
     construct := construct obliging;
     getSignedUrl := getSignedUrl obliging;
     marshall := marshall obliging;
     unmarshall := unmarshall obliging;
     NanoCache_undefined := NanoCache_undefined obliging;
     JSON_parse := JSON_parse obliging;
     JSON_stringify := JSON_stringify obliging;
     decodeURIComponent := decodeURIComponent obliging;
     env := env obliging |}.

(** *** Counting requests *)

(** Whether a call gets a client of the kind [c]: the static field holds
    one ([defined]), or the constructor gives one. *)
Definition available (c : Client) (defined : bool) (p : Platform) : bool :=
  defined || bool_decide (construct p c = None).

(** What [marshall] throws at the record that a call of [putItem], [getItem]
    or [deleteItem] is handed; the other operations marshall nothing. *)
Definition refusal (op : Operation) (p : Platform) : option Exception :=
  match op with
  | DynDb_putItem record | DynDb_getItem record | DynDb_deleteItem record =>
      match marshall p record with
      | Rejected e => Some e
      | Fulfilled _ => None
      end
  | _ => None
  end.

(** Whether a call of an operation that is not built around a loop gets as
    far as its request: the client of the queue is always there; the
    parameter store is asked when its client is and the cache holds no
    truthy value under the name; the table when its client is defined and
    [marshall] accepts the record; the object store when its client is, and
    for [retrieveFileData] when the first file has a key. The remaining
    operations ([init], [getS3], [getSignedUrlForFile],
    [stripS3ObjectKeyOfSpecialChars]) have nothing to request. *)
Definition sends (op : Operation) (p : Platform) (w : World) : bool :=
  match op with
  | Sqs_writeMessageToQueue _ _ _ => true
  | Ssm_getParamValue paramName _ | Ssm_getParamObject paramName _ =>
      available SSMClient (ssm w) p && negb (truthy (cache w !! paramName))
  | DynDb_putItem _ | DynDb_getItem _ | DynDb_deleteItem _ =>
      ddb w && bool_decide (refusal op p = None)
  | DynDb_getItemByPK _ | DynDb_getItemsByPK _ | DynDb_getItemsWithSKBeginning _ _
  | DynDb_getItemsWithSKBetween _ _ _ _ _ _ | DynDb_getItemBySK _
  | DynDb_getAllByPKPrefixAndSK _ _ => ddb w
  | S3_retrieveFileData files _ =>
      truthy (files !! 0%nat ≫= Key) && available S3Client (s3Client w) p
  | S3_retrieveSortedFileList _ | S3_createFileInBucket _ _ _ _ _
  | S3_getFileByName _ _ | S3_deleteFileByName _ _ => available S3Client (s3Client w) p
  | _ => false
  end.

(** The requests of a loop that asks for page after page, with how the loop
    ends: every request but the last was answered by a truncated page; the
    loop returns on a page that is not truncated, throws what a request is
    rejected with, and is still running when its last page was truncated. *)
Fixpoint pagewise {A} (asked : list Event) (outcome : Completion A) : Prop :=
  match asked with
  | [] => outcome = Pending
  | Requested _ (Rejected e) :: rest => rest = [] ∧ outcome = Threw e
  | Requested _ (Fulfilled page) :: rest =>
      if default false (resp_IsTruncated page) then pagewise rest outcome
      else rest = [] ∧ ∃ a, outcome = Returned a
  | _ :: _ => False
  end.

(** * Properties *)

(** ** Running a computation *)

Lemma bind_run {A B} (m : Async A) (k : A -> Async B) (p : Platform) (w : World) :
  (m ≫= k) p w =
  match m p w with
  | (Returned a, w') => k a p w'
  | (Threw e, w') => (Threw e, w')
  | (Pending, w') => (Pending, w')
  end.
Proof. reflexivity. Qed.

Lemma settle_run {A} (s : Settled A) (p : Platform) (w : World) :
  settle s p w = (match s with Fulfilled a => Returned a | Rejected e => Threw e end, w).
Proof. by destruct s. Qed.

Lemma send_run (cmd : Command) (p : Platform) (w : World) :
  send cmd p w =
  let answer := reply p (length (requests (events w))) cmd in
  (match answer with Fulfilled r => Returned r | Rejected e => Threw e end,
   with_events (fun evs => evs ++ [Requested cmd answer]) w).
Proof. unfold send, settle. simpl. by destruct (reply p _ cmd). Qed.

Lemma requests_app (evs evs' : list Event) :
  requests (evs ++ evs') = requests evs ++ requests evs'.
Proof. unfold requests. apply List.filter_app. Qed.

Lemma commands_app (evs evs' : list Event) :
  commands (evs ++ evs') = commands evs ++ commands evs'.
Proof. unfold commands. apply omap_app. Qed.

Lemma commands_length_le (evs : list Event) : length (commands evs) ≤ length evs.
Proof.
  unfold commands. induction evs as [| ev evs IH]; [done |].
  destruct ev; simpl in *; unfold omap in *; lia.
Qed.

(** Events that yield as many commands as there are events are all requests. *)
Lemma only_requests (evs : list Event) :
  length (commands evs) = length evs -> requests evs = evs.
Proof.
  induction evs as [| ev evs IH]; [done |].
  pose proof (commands_length_le evs). unfold commands in *.
  destruct ev; simpl in *; unfold omap in *; intros Hlen; [| lia | lia].
  f_equal. apply IH. lia.
Qed.

(** ** lodash's chunk *)

Lemma baseSlice_length {A} (array : list A) (index size : nat) :
  length (baseSlice array index (index + size)) = size `min` (length array - index).
Proof. unfold baseSlice. rewrite length_take, length_drop. f_equal. lia. Qed.

Lemma chunk_loop_concat {A} (size : nat) (array : list A) (index : nat) :
  0 < size -> concat (chunk_loop size array index) = drop index array.
Proof.
  intros Hsize. funelim (chunk_loop size array index).
  - simpl. rewrite H by done. unfold baseSlice.
    replace (index + size - index) with size by lia.
    rewrite <- drop_drop. apply take_drop.
  - simpl. rewrite drop_ge; [done | lia].
Qed.

Lemma chunk_loop_nonempty {A} (size : nat) (array : list A) (index : nat) :
  chunk_loop size array index ≠ [] -> index < length array.
Proof.
  funelim (chunk_loop size array index); [lia | done].
Qed.

Lemma chunk_loop_sizes {A} (size : nat) (array : list A) (index : nat) :
  Forall (fun c => 0 < length c ≤ size) (chunk_loop size array index).
Proof.
  funelim (chunk_loop size array index); [| constructor].
  constructor; [| done].
  rewrite baseSlice_length. lia.
Qed.

Lemma chunk_loop_full {A} (size : nat) (array : list A) (index i : nat) (c : list A) :
  chunk_loop size array index !! i = Some c ->
  S i < length (chunk_loop size array index) ->
  length c = size.
Proof.
  revert i. funelim (chunk_loop size array index); [| done].
  intros [| i] Hc Hlen; simpl in *.
  - injection Hc as <-. rewrite baseSlice_length.
    assert (index + size < length array).
    { apply (chunk_loop_nonempty size). intros Hnil. rewrite Hnil in Hlen. simpl in Hlen. lia. }
    lia.
  - eapply H; [done | lia].
Qed.

Lemma chunk_concat {A} (array : list A) (size : nat) :
  0 < size -> concat (chunk array size) = array.
Proof.
  intros Hsize. unfold chunk. case_decide as Hc.
  - destruct Hc as [Hc | Hc]; [| lia]. by destruct array.
  - by rewrite chunk_loop_concat.
Qed.

Lemma chunk_sizes {A} (array : list A) (size : nat) :
  Forall (fun c => 0 < length c ≤ size) (chunk array size).
Proof. unfold chunk. case_decide; [constructor | apply chunk_loop_sizes]. Qed.

Lemma chunk_full {A} (array : list A) (size i : nat) (c : list A) :
  chunk array size !! i = Some c -> S i < length (chunk array size) -> length c = size.
Proof. unfold chunk. case_decide; [done | apply chunk_loop_full]. Qed.

Lemma chunk_loop_length {A} (size : nat) (array : list A) (index : nat) :
  0 < size ->
  length (chunk_loop size array index) = (length array - index + (size - 1)) / size.
Proof.
  intros Hsize. funelim (chunk_loop size array index).
  - simpl. rewrite H by done.
    pose proof (proj1 a) as Hindex.
    destruct (decide (length array - index < size)) as [Hshort | Hlong].
    + replace (length array - (index + size)) with 0 by lia.
      rewrite (Nat.div_small (0 + (size - 1))) by lia.
      apply (Nat.div_unique _ _ _ (length array - index - 1)); lia.
    + replace (length array - index + (size - 1))
        with (length array - (index + size) + (size - 1) + 1 * size) by lia.
      rewrite Nat.div_add by lia. lia.
  - simpl.
    assert (length array - index = 0) as -> by lia.
    symmetry. apply Nat.div_small. lia.
Qed.

Lemma chunk_length {A} (array : list A) (size : nat) :
  0 < size -> length (chunk array size) = (length array + (size - 1)) / size.
Proof.
  intros Hsize. unfold chunk. case_decide as Hc.
  - destruct Hc as [-> | Hc]; [| lia]. simpl. symmetry. apply Nat.div_small. lia.
  - rewrite chunk_loop_length by done. by rewrite Nat.sub_0_r.
Qed.

(** ** SqsWrapper.writeMessageBatchToFifoQueue *)

Lemma entriesOf_lookup (c : list MessageAndGroupId) (j : nat) (m : MessageAndGroupId) :
  c !! j = Some m ->
  SqsWrapper.entriesOf c !! j =
    Some {| Id := "msg-" +:+ numberToString j;
            MessageBody := message m;
            MessageGroupId := groupId m |}.
Proof.
  intros Hj. unfold SqsWrapper.entriesOf. rewrite list_lookup_imap, Hj. reflexivity.
Qed.

Lemma entriesOf_ids (c : list MessageAndGroupId) :
  Id <$> SqsWrapper.entriesOf c =
  (fun j => "msg-" +:+ numberToString j) <$> seq 0 (length c).
Proof.
  unfold SqsWrapper.entriesOf.
  apply list_eq. intros j.
  rewrite !list_lookup_fmap, list_lookup_imap.
  destruct (c !! j) as [m |] eqn:Hj; simpl.
  - rewrite lookup_seq_lt; [done |]. by eapply lookup_lt_Some.
  - rewrite lookup_seq_ge; [done |]. by apply lookup_ge_None.
Qed.

Lemma entriesOf_bodies (c : list MessageAndGroupId) :
  (fun entry => {| groupId := MessageGroupId entry; message := MessageBody entry |})
    <$> SqsWrapper.entriesOf c = c.
Proof.
  unfold SqsWrapper.entriesOf.
  apply list_eq. intros j.
  rewrite list_lookup_fmap, list_lookup_imap.
  destruct (c !! j) as [[g m] |]; reflexivity.
Qed.

(** What the loop over the chunks leaves in the trace. *)
Lemma forEachChunk_trace (queueUrl : string) (chunks : list (list MessageAndGroupId))
    (p : Platform) (w : World) :
  let batches :=
    (fun c => SendMessageBatchCommand (SqsWrapper.entriesOf c) queueUrl) <$> chunks in
  ∃ sent, events (SqsWrapper.forEachChunk queueUrl chunks p w).2 = events w ++ sent ∧
    match (SqsWrapper.forEachChunk queueUrl chunks p w).1 with
    | Returned _ => commands sent = batches ∧ length sent = length batches
    | Threw e =>
        ∃ k cmd, k < length batches ∧ commands sent = take (S k) batches ∧
                 length sent = S k ∧ last sent = Some (Requested cmd (Rejected e))
    | Pending => False
    end.
Proof.
  revert w. induction chunks as [| c rest IH]; intros w; simpl.
  - exists []. by rewrite app_nil_r.
  - unfold SqsWrapper.writeMessageBatch. rewrite !bind_run, send_run. simpl.
    set (cmd := SendMessageBatchCommand (SqsWrapper.entriesOf c) queueUrl).
    destruct (reply p (length (requests (events w))) cmd) as [r | e] eqn:Hreply; simpl.
    + set (w1 := with_events _ w).
      destruct (IH w1) as (sent & Hev & Hout).
      exists (Requested cmd (Fulfilled r) :: sent). split.
      { rewrite Hev. subst w1. simpl. by rewrite <- app_assoc. }
      destruct (SqsWrapper.forEachChunk queueUrl rest p w1).1 as [[] | e |].
      * destruct Hout as [Hc Hl]. simpl. by rewrite Hc, Hl.
      * destruct Hout as (k & cmd' & Hk & Hc & Hl & Hlast).
        exists (S k), cmd'. simpl. rewrite Hc, Hl.
        split_and!; [apply (proj1 (Nat.succ_lt_mono _ _)), Hk | done | done |].
        destruct sent; [done | by rewrite last_cons, Hlast].
      * done.
    + exists [Requested cmd (Rejected e)]. split; [done |].
      exists 0, cmd. simpl. split_and!; [lia | by rewrite take_0 | done | done].
Qed.

Example chunk_of_23 (m : MessageAndGroupId) :
  length <$> chunk (replicate 23 m) 10 = [10; 10; 3].
Proof. reflexivity. Qed.

Example ids_of_three (a b c : MessageAndGroupId) :
  Id <$> SqsWrapper.entriesOf [a; b; c] = ["msg-0"; "msg-1"; "msg-2"].
Proof. reflexivity. Qed.

(** C3. [writeMessageBatchToFifoQueue] cuts the messages into consecutive
    chunks whose concatenation is the original list, each of at most 10
    messages and all but the last of exactly 10; the entries of a chunk carry
    the ids msg-0, msg-1, ... up to msg-9 in order and the bodies and groups
    of its messages; and it sends one batch command per chunk, in list
    order: all of them when it returns, and when it throws, the commands up
    to and including the one whose rejection it passes on. *)
Theorem writeMessageBatchToFifoQueue_chunks (queueUrl : string)
    (messages : list MessageAndGroupId) (p : Platform) (w : World) :
  let chunks := chunk messages 10 in
  let batches :=
    (fun c => SendMessageBatchCommand (SqsWrapper.entriesOf c) queueUrl) <$> chunks in
  let run := SqsWrapper.writeMessageBatchToFifoQueue queueUrl messages p w in
  concat chunks = messages ∧
  Forall (fun c => 0 < length c ≤ 10) chunks ∧
  (∀ i c, chunks !! i = Some c -> S i < length chunks -> length c = 10) ∧
  Forall (fun c =>
            Id <$> SqsWrapper.entriesOf c = take (length c) msgIds ∧
            (fun entry => {| groupId := MessageGroupId entry; message := MessageBody entry |})
              <$> SqsWrapper.entriesOf c = c) chunks ∧
  ∃ sent, events run.2 = events w ++ sent ∧
    match run.1 with
    | Returned _ => commands sent = batches ∧ length sent = length batches
    | Threw e =>
        ∃ k cmd, k < length batches ∧ commands sent = take (S k) batches ∧
                 length sent = S k ∧ last sent = Some (Requested cmd (Rejected e))
    | Pending => False
    end.
Proof.
  intros chunks batches run.
  split; [apply chunk_concat; lia |].
  split; [apply chunk_sizes |].
  split; [apply chunk_full |].
  split; [| apply forEachChunk_trace].
  eapply Forall_impl; [apply (chunk_sizes messages 10) |].
  intros c [_ Hlen]. split; [| apply entriesOf_bodies].
  rewrite entriesOf_ids.
  change msgIds with ((fun j => "msg-" +:+ numberToString j) <$> seq 0 10).
  rewrite <- fmap_take. f_equal.
  rewrite take_seq. f_equal. lia.
Qed.

(** ** Rules for the three judgements *)

Lemma try_catch_run {A} (body : Async A) (handler : Exception -> Async A)
    (p : Platform) (w : World) :
  try_catch body handler p w =
  match body p w with
  | (Threw e, w') => handler e p (with_events (fun evs => evs ++ [Caught e]) w')
  | r => r
  end.
Proof. reflexivity. Qed.

Lemma since_app (w w' : World) (new : list Event) :
  events w' = events w ++ new -> since w w' = new.
Proof. intros Hev. unfold since. by rewrite Hev, drop_app_length. Qed.

Section Rules.
Context {A B : Type}.

Lemma silent_propagates (m : Async A) : Silent m -> Propagates m.
Proof.
  intros Hm p w. exists []. rewrite app_nil_r. split; [apply Hm |].
  intros e He. by apply elem_of_nil in He.
Qed.

Lemma silent_atmost (m : Async A) : Silent m -> AtMost 0 m.
Proof. intros Hm p w. exists []. rewrite app_nil_r. split; [apply Hm | simpl; lia]. Qed.

Lemma silent_ret (a : A) : Silent (ret a).
Proof. done. Qed.

Lemma silent_bind (m : Async A) (k : A -> Async B) :
  Silent m -> (∀ a, Silent (k a)) -> Silent (m ≫= k).
Proof.
  intros Hm Hk p w. rewrite bind_run. specialize (Hm p w).
  destruct (m p w) as [[a | e |] w']; simpl in *; [by rewrite Hk | done | done].
Qed.

Lemma silent_throw (e : Exception) : Silent (throw e : Async A).
Proof. done. Qed.

Lemma silent_settle (s : Settled A) : Silent (settle s).
Proof. by destruct s. Qed.

Lemma settles_ret (a : A) : Settles (ret a).
Proof. done. Qed.

Lemma settles_throw (e : Exception) : Settles (throw e : Async A).
Proof. done. Qed.

Lemma settles_settle (s : Settled A) : Settles (settle s).
Proof. by destruct s. Qed.

Lemma propagates_bind (m : Async A) (k : A -> Async B) :
  Propagates m -> (∀ a, Propagates (k a)) -> Propagates (m ≫= k).
Proof.
  intros Hm Hk p w. rewrite bind_run.
  destruct (Hm p w) as (new & Hev & Hfail).
  destruct (m p w) as [[a | e |] w1]; simpl in *.
  - destruct (Hk a p w1) as (new' & Hev' & Hfail').
    exists (new ++ new'). split.
    + by rewrite Hev', Hev, app_assoc.
    + intros e He. unfold failures in He. rewrite omap_app in He.
      apply elem_of_app in He as [He | He]; [| by apply Hfail'].
      by specialize (Hfail e He).
  - exists new. split; [done |]. intros e' He'. specialize (Hfail e' He'). congruence.
  - exists new. split; [done |]. intros e' He'. by specialize (Hfail e' He').
Qed.

Lemma atmost_bind (a b : nat) (m : Async A) (k : A -> Async B) :
  AtMost a m -> (∀ x, AtMost b (k x)) -> AtMost (a + b) (m ≫= k).
Proof.
  intros Hm Hk p w. rewrite bind_run.
  destruct (Hm p w) as (new & Hev & Hlen).
  destruct (m p w) as [[x | e |] w1]; simpl in *;
    [| exists new; split; [done | lia] | exists new; split; [done | lia]].
  destruct (Hk x p w1) as (new' & Hev' & Hlen').
  exists (new ++ new'). split.
  - by rewrite Hev', Hev, app_assoc.
  - rewrite requests_app, length_app. lia.
Qed.

Lemma settles_bind (m : Async A) (k : A -> Async B) :
  Settles m -> (∀ a, Settles (k a)) -> Settles (m ≫= k).
Proof.
  intros Hm Hk p w. rewrite bind_run. specialize (Hm p w).
  destruct (m p w) as [[a | e |] w1]; simpl in *; [apply Hk | done | done].
Qed.

Lemma atmost_weaken (a b : nat) (m : Async A) : AtMost a m -> a ≤ b -> AtMost b m.
Proof.
  intros Hm Hab p w. destruct (Hm p w) as (new & Hev & Hlen).
  exists new. split; [done | lia].
Qed.

Lemma propagates_try_catch (body : Async A) (handler : Exception -> Async A) :
  Propagates body -> Rethrows handler -> (∀ e, Propagates (handler e)) ->
  Propagates (try_catch body handler).
Proof.
  intros Hbody Hre Hh p w. rewrite try_catch_run.
  destruct (Hbody p w) as (new & Hev & Hfail).
  destruct (body p w) as [[a | e |] w1]; simpl in *;
    [exists new; split; [done | apply Hfail] | | exists new; split; [done | apply Hfail]].
  set (w2 := with_events _ w1).
  destruct (Hh e p w2) as (new' & Hev' & Hfail').
  exists (new ++ [Caught e] ++ new'). split.
  - rewrite Hev'. subst w2. simpl. by rewrite Hev, <- !app_assoc.
  - intros e' He'. unfold failures in He'. rewrite !omap_app in He'.
    rewrite Hre.
    apply elem_of_app in He' as [He' | He'].
    { specialize (Hfail e' He'). congruence. }
    apply elem_of_app in He' as [He' | He'].
    { simpl in He'. apply list_elem_of_singleton in He'. congruence. }
    specialize (Hfail' e' He'). by rewrite Hre in Hfail'.
Qed.

Lemma atmost_try_catch (a b : nat) (body : Async A) (handler : Exception -> Async A) :
  AtMost a body -> (∀ e, AtMost b (handler e)) -> AtMost (a + b) (try_catch body handler).
Proof.
  intros Hbody Hh p w. rewrite try_catch_run.
  destruct (Hbody p w) as (new & Hev & Hlen).
  destruct (body p w) as [[x | e |] w1]; simpl in *;
    [exists new; split; [done | lia] | | exists new; split; [done | lia]].
  set (w2 := with_events _ w1).
  destruct (Hh e p w2) as (new' & Hev' & Hlen').
  exists (new ++ [Caught e] ++ new'). split.
  - rewrite Hev'. subst w2. simpl. by rewrite Hev, <- !app_assoc.
  - rewrite !requests_app, !length_app. simpl. lia.
Qed.

Lemma settles_try_catch (body : Async A) (handler : Exception -> Async A) :
  Settles body -> (∀ e, Settles (handler e)) -> Settles (try_catch body handler).
Proof.
  intros Hbody Hh p w. rewrite try_catch_run. specialize (Hbody p w).
  destruct (body p w) as [[x | e |] w1]; simpl in *; [done | apply Hh | done].
Qed.

End Rules.

Lemma silent_ask : Silent ask.
Proof. done. Qed.

Lemma silent_get : Silent get.
Proof. done. Qed.

Lemma silent_log (entry : LogEntry) : Silent (log entry).
Proof. done. Qed.

Lemma silent_modify (f : World -> World) :
  (∀ w, events (f w) = events w) -> Silent (modify f).
Proof. intros Hf p w. apply Hf. Qed.

Lemma settles_modify (f : World -> World) : Settles (modify f).
Proof. done. Qed.

Lemma propagates_send (cmd : Command) : Propagates (send cmd).
Proof.
  intros p w. rewrite send_run. simpl.
  eexists. split; [reflexivity |].
  intros e He. unfold failures in He. simpl in He.
  destruct (reply p _ cmd); simpl in He.
  - by apply elem_of_nil in He.
  - apply list_elem_of_singleton in He. by subst.
Qed.

Lemma atmost_send (cmd : Command) : AtMost 1 (send cmd).
Proof.
  intros p w. rewrite send_run. simpl. eexists. split; [reflexivity | simpl; lia].
Qed.

Lemma settles_send (cmd : Command) : Settles (send cmd).
Proof. intros p w. rewrite send_run. simpl. by destruct (reply p _ cmd). Qed.

Lemma propagates_newClient (c : Client) : Propagates (newClient c).
Proof.
  intros p w. unfold newClient.
  exists [Constructed c (construct p c)].
  destruct (construct p c) as [e |] eqn:Hc; simpl; (split; [done |]).
  - intros e' He'. apply list_elem_of_singleton in He'. by subst.
  - intros e' He'. by apply elem_of_nil in He'.
Qed.

Lemma atmost_newClient (c : Client) : AtMost 0 (newClient c).
Proof.
  intros p w. unfold newClient.
  exists [Constructed c (construct p c)].
  destruct (construct p c); simpl; (split; [done | lia]).
Qed.

Lemma settles_newClient (c : Client) : Settles (newClient c).
Proof. intros p w. unfold newClient. by destruct (construct p c). Qed.

(** ** The judgements, operation by operation *)

Ltac silent :=
  solve [ repeat first
            [ apply silent_ret | apply silent_throw | apply silent_settle | apply silent_ask
            | apply silent_get | apply silent_log | (apply silent_modify; done)
            | (apply silent_bind; [| intros ?])
            | case_match ] ].

Ltac propagates :=
  repeat first
    [ apply propagates_send
    | apply propagates_newClient
    | (apply silent_propagates; silent)
    | (apply propagates_bind; [| intros ?])
    | (apply propagates_try_catch; [| (intros ? ? ?; reflexivity) | intros ?])
    | case_match ].

Ltac settles :=
  repeat first
    [ apply settles_send
    | apply settles_newClient
    | apply settles_ret | apply settles_throw | apply settles_settle | apply settles_modify
    | (intros ? ?; discriminate)
    | (apply settles_bind; [| intros ?])
    | (apply settles_try_catch; [| intros ?])
    | case_match ].

Lemma forEachChunk_propagates (queueUrl : string) (chunks : list (list MessageAndGroupId)) :
  Propagates (SqsWrapper.forEachChunk queueUrl chunks).
Proof.
  induction chunks as [| c rest IH]; simpl.
  - propagates.
  - apply propagates_bind; [| done]. unfold SqsWrapper.writeMessageBatch. propagates.
Qed.

Lemma whileTruncated_propagates (budget : nat) (locals : Locals) :
  Propagates (S3Wrapper.whileTruncated budget locals).
Proof.
  revert locals. induction budget as [| budget IH]; intros locals; simpl.
  - case_match; [| propagates]. apply silent_propagates. done.
  - case_match; [| propagates].
    apply propagates_bind; [propagates |]. intros result. apply IH.
Qed.

Lemma perform_propagates `{TableClass} (op : Operation) :
  op ≠ DynDb_init -> Propagates (perform op).
Proof.
  intros Hop. destruct op; try done; simpl; unfold void.
  all: try (apply propagates_bind; [| intros ?; propagates]).
  all: try apply forEachChunk_propagates.
  all: try (apply propagates_bind; [| intros ?; apply whileTruncated_propagates]).
  all: unfold SqsWrapper.writeMessageToQueue, SqsWrapper.writeMessage, SsmWrapper.init,
         SsmWrapper.getParamValue, SsmWrapper.getParamObject, SsmWrapper.getParam,
         SsmWrapper.cache_get, SsmWrapper.cache_set,
         DynDb.putItem, DynDb.getItem, DynDb.getItemByPK, DynDb.getItemsByPK,
         DynDb.getItemsWithSKBeginning, DynDb.getItemsWithSKBetween, DynDb.getItemBySK,
         DynDb.getAllByPKPrefixAndSK, DynDb.deleteItem, DynDb.ddb_send, DynDb.unmarshallAll,
         S3Wrapper.retrieveFileData,
         S3Wrapper.retrieveSortedFileList, S3Wrapper.createFileInBucket,
         S3Wrapper.getFileByName, S3Wrapper.readAll, S3Wrapper.deleteFileByName,
         S3Wrapper.getSignedUrlForFile, S3Wrapper.stripS3ObjectKeyOfSpecialChars,
         S3Wrapper.getS3, S3Wrapper.initialise.
  all: propagates.
Qed.

Ltac atmost :=
  first
    [ solve [ eapply atmost_weaken; [apply atmost_send | lia] ]
    | solve [ eapply atmost_weaken; [apply atmost_newClient | lia] ]
    | solve [ eapply atmost_weaken; [apply silent_atmost; silent | lia] ]
    | match goal with
      | |- AtMost ?n (_ ≫= _) =>
          first [ solve [ apply (atmost_bind 0 n); [atmost | intros ?; atmost] ]
                | solve [ apply (atmost_bind n 0); [atmost | intros ?; atmost] ] ]
      | |- AtMost ?n (try_catch _ _) =>
          solve [ apply (atmost_try_catch n 0); [atmost | intros ?; atmost] ]
      end
    | solve [ case_match; atmost ] ].

Lemma forEachChunk_atmost (queueUrl : string) (chunks : list (list MessageAndGroupId)) :
  AtMost (length chunks) (SqsWrapper.forEachChunk queueUrl chunks).
Proof.
  induction chunks as [| c rest IH]; simpl.
  - atmost.
  - apply (atmost_bind 1 (length rest)); [| done].
    unfold SqsWrapper.writeMessageBatch. atmost.
Qed.

Lemma whileTruncated_atmost (budget : nat) (locals : Locals) :
  AtMost budget (S3Wrapper.whileTruncated budget locals).
Proof.
  revert locals. induction budget as [| budget IH]; intros locals; simpl.
  - case_match; [| atmost]. apply silent_atmost. done.
  - case_match; [| atmost].
    apply (atmost_bind 1 budget); [atmost |]. intros result. apply IH.
Qed.

Lemma perform_atmost `{TableClass} (op : Operation) :
  AtMost (requestBound op) (perform op).
Proof.
  destruct op; simpl; unfold void.
  all: try apply forEachChunk_atmost.
  all: try (apply (atmost_weaken (budget + 0)); [| lia];
            apply (atmost_bind budget 0); [| intros ?; atmost];
            apply (atmost_bind 0 budget); [| intros ?; apply whileTruncated_atmost]).
  all: unfold SqsWrapper.writeMessageToQueue, SqsWrapper.writeMessage,
         SsmWrapper.getParamValue, SsmWrapper.getParamObject, SsmWrapper.getParam,
         SsmWrapper.init, SsmWrapper.cache_get, SsmWrapper.cache_set, DynDb.init,
         DynDb.putItem, DynDb.getItem, DynDb.getItemByPK, DynDb.getItemsByPK,
         DynDb.getItemsWithSKBeginning, DynDb.getItemsWithSKBetween, DynDb.getItemBySK,
         DynDb.getAllByPKPrefixAndSK, DynDb.deleteItem, DynDb.ddb_send, DynDb.unmarshallAll,
         S3Wrapper.retrieveFileData,
         S3Wrapper.retrieveSortedFileList, S3Wrapper.createFileInBucket,
         S3Wrapper.getFileByName, S3Wrapper.readAll, S3Wrapper.deleteFileByName,
         S3Wrapper.getSignedUrlForFile, S3Wrapper.stripS3ObjectKeyOfSpecialChars,
         S3Wrapper.getS3, S3Wrapper.initialise.
  all: atmost.
Qed.

Lemma forEachChunk_settles (queueUrl : string) (chunks : list (list MessageAndGroupId)) :
  Settles (SqsWrapper.forEachChunk queueUrl chunks).
Proof.
  induction chunks as [| c rest IH]; simpl.
  - settles.
  - apply settles_bind; [| done]. unfold SqsWrapper.writeMessageBatch. settles.
Qed.

Lemma perform_settles `{TableClass} (op : Operation) :
  (∀ budget bucket prefix, op ≠ S3_getListOfFileKeys budget bucket prefix) ->
  Settles (perform op).
Proof.
  intros Hop. destruct op; simpl; unfold void.
  all: try apply forEachChunk_settles.
  all: try (exfalso; by eapply Hop).
  all: unfold SqsWrapper.writeMessageToQueue, SqsWrapper.writeMessage,
         SsmWrapper.getParamValue, SsmWrapper.getParamObject, SsmWrapper.getParam,
         SsmWrapper.init, SsmWrapper.cache_get, SsmWrapper.cache_set, DynDb.init,
         DynDb.putItem, DynDb.getItem, DynDb.getItemByPK, DynDb.getItemsByPK,
         DynDb.getItemsWithSKBeginning, DynDb.getItemsWithSKBetween, DynDb.getItemBySK,
         DynDb.getAllByPKPrefixAndSK, DynDb.deleteItem, DynDb.ddb_send, DynDb.unmarshallAll,
         S3Wrapper.retrieveFileData,
         S3Wrapper.retrieveSortedFileList, S3Wrapper.createFileInBucket,
         S3Wrapper.getFileByName, S3Wrapper.readAll, S3Wrapper.deleteFileByName,
         S3Wrapper.getSignedUrlForFile, S3Wrapper.stripS3ObjectKeyOfSpecialChars,
         S3Wrapper.getS3, S3Wrapper.initialise,
         ask, get, log.
  all: settles.
Qed.

(** ** One request per operation, and where it is more or fewer *)

Lemma DynDb_init_or_not (op : Operation) : op = DynDb_init ∨ op ≠ DynDb_init.
Proof. destruct op; (by left) || (by right). Qed.

Lemma DynDb_init_no_request `{TableClass} : AtMost 0 DynDb.init.
Proof. unfold DynDb.init. atmost. Qed.

(** What [init] does, in full. *)
Lemma DynDb_init_run `{TableClass} (p : Platform) (w : World) :
  (DynDb.init p w).1 = Returned tt ∧
  ddb (DynDb.init p w).2 = ddb w || bool_decide (construct p DynamoDBClient = None) ∧
  console (DynDb.init p w).2 =
    console w ++ ConsoleWarn "DynamoDB config" ::
    (if ddb w then []
     else match construct p DynamoDBClient with
          | Some e => [ConsoleError "Failed to initialise dynamodb" e]
          | None => []
          end) ∧
  ∀ e, ddb w = false -> construct p DynamoDBClient = Some e ->
       e ∈ failures (since w (DynDb.init p w).2).
Proof.
  unfold DynDb.init.
  unfold mbind, Async_bind, bind, try_catch, log, modify, get, newClient, ret.
  cbn [fst snd ddb console with_console].
  destruct (ddb w) eqn:Hd; cbn [negb fst snd ddb console with_console with_events with_ddb].
  - rewrite Hd. by split_and!.
  - destruct (construct p DynamoDBClient) as [e |];
      cbn [fst snd ddb console with_console with_events with_ddb].
    + rewrite Hd, <- app_assoc. split_and!; [done | done | done |].
      intros e' _ [= <-].
      erewrite since_app
        by (cbn [events with_events with_console]; rewrite <- ?app_assoc; reflexivity).
      apply list_elem_of_here.
    + split_and!; [done | done | done | done].
Qed.

Lemma elem_of_requests (ev : Event) (evs : list Event) :
  ev ∈ evs -> isRequest ev = true -> ev ∈ requests evs.
Proof.
  intros Hin Hreq. apply list_elem_of_In, filter_In. split; [| done].
  by apply list_elem_of_In.
Qed.

Lemma requests_elem_of (ev : Event) (evs : list Event) :
  ev ∈ requests evs -> ev ∈ evs.
Proof.
  intros Hin. apply list_elem_of_In, filter_In in Hin as [Hin _]. by apply list_elem_of_In.
Qed.

Lemma since_refl (w : World) : since w w = [].
Proof. unfold since. by rewrite drop_all. Qed.

(** The events added, read off a world written as updates of [w]. *)
Ltac since_new :=
  erewrite since_app
    by (cbn [events with_events with_console with_cache with_ssm with_ddb with_s3Client];
        rewrite <- ?app_assoc; reflexivity).

Lemma since_void {A} (m : Async A) (p : Platform) (w : World) :
  since w (void m p w).2 = since w (m p w).2.
Proof. unfold void. rewrite bind_run. by destruct (m p w) as [[a | e |] w']. Qed.

(** Running an operation down to what the platform decides. *)
Ltac run_operation :=
  unfold SqsWrapper.writeMessageToQueue, SqsWrapper.writeMessage,
    SsmWrapper.getParamValue, SsmWrapper.getParamObject, SsmWrapper.getParam,
    SsmWrapper.init, SsmWrapper.cache_get, SsmWrapper.cache_set, DynDb.init,
    DynDb.putItem, DynDb.getItem, DynDb.getItemByPK, DynDb.getItemsByPK,
    DynDb.getItemsWithSKBeginning, DynDb.getItemsWithSKBetween, DynDb.getItemBySK,
    DynDb.getAllByPKPrefixAndSK, DynDb.deleteItem, DynDb.ddb_send, DynDb.unmarshallAll,
    S3Wrapper.retrieveFileData,
    S3Wrapper.retrieveSortedFileList, S3Wrapper.createFileInBucket,
    S3Wrapper.getFileByName, S3Wrapper.readAll, S3Wrapper.deleteFileByName,
    S3Wrapper.getSignedUrlForFile, S3Wrapper.stripS3ObjectKeyOfSpecialChars,
    S3Wrapper.getS3, S3Wrapper.initialise,
    void, try_catch, mbind, Async_bind, bind, send, settle, newClient, ask, get, log, modify,
    ret, throw;
  cbn [fst snd events console cache ssm ddb s3Client
       with_events with_console with_cache with_ssm with_ddb with_s3Client].

Ltac world := cbn [fst snd negb andb orb events console cache ssm ddb s3Client
                   with_events with_console with_cache with_ssm with_ddb with_s3Client].

(** Case analysis on what a [match] of the goal looks at, innermost first. *)
Ltac case_inner :=
  match goal with
  | |- context [match ?x with _ => _ end] =>
      lazymatch x with
      | context [match _ with _ => _ end] => fail
      | _ => destruct x eqn:?
      end
  end.

(** An operation that is not built around a loop issues one request when it
    gets as far as sending, and none otherwise. *)
Lemma perform_count `{TableClass} (op : Operation) (p : Platform) (w : World) :
  loops op = false ->
  length (requests (since w (perform op p w).2)) = (if sends op p w then 1 else 0).
Proof.
  intros Hop. destruct op; try done; cbn [perform sends refusal]; unfold available.
  all: run_operation.
  all: repeat match goal with
         | |- context [ssm ?w0] => destruct (ssm w0) eqn:?; world
         | |- context [ddb ?w0] => destruct (ddb w0) eqn:?; world
         | |- context [s3Client ?w0] => destruct (s3Client w0) eqn:?; world
         | |- context [construct ?p0 ?c] => destruct (construct p0 c) eqn:?; world
         | |- context [marshall ?p0 ?r] => destruct (marshall p0 r) eqn:?; world
         | |- context [truthy ?v] => destruct (truthy v) eqn:?; world
         | |- context [reply ?p0 ?n ?c] => destruct (reply p0 n c) eqn:?; world
         | |- context [Array_map ?f ?l] => destruct (Array_map f l) eqn:?; world
         end.
  all: try congruence.
  all: cbn [negb andb orb];
    rewrite ?bool_decide_eq_true_2, ?bool_decide_eq_false_2 by done; cbn [negb andb orb].
  all: repeat (first [ case_inner
                     | match goal with
                       | |- context [Array_map ?f ?l] => destruct (Array_map f l) eqn:?
                       end ];
               world; cbn [mbind option_bind]).
  all: first [ rewrite since_refl; reflexivity | since_new; reflexivity
             | unfold since; world; by rewrite drop_all ].
Qed.

(** Not every operation issues exactly one request: a batch of eleven
    messages takes two. *)
Lemma eleven_messages_two_requests :
  let op := Sqs_writeMessageBatchToFifoQueue "https://queue.fifo"
              (replicate 11 {| groupId := "group1"; message := "hello" |}) in
  let run := @perform TestDynDb op obliging fresh in
  run.1 = Returned tt ∧ length (requests (since fresh run.2)) = 2.
Proof. vm_compute. done. Qed.

(** How the loop over the pages of a listing runs. *)
Lemma whileTruncated_asked (budget : nat) (locals : Locals) (p : Platform) (w : World) :
  isTruncated locals = true ->
  ∃ asked, events (S3Wrapper.whileTruncated budget locals p w).2 = events w ++ asked ∧
    requests asked = asked ∧ length asked ≤ budget ∧
    pagewise asked (S3Wrapper.whileTruncated budget locals p w).1 ∧
    ((S3Wrapper.whileTruncated budget locals p w).1 = Pending -> length asked = budget).
Proof.
  revert locals w. induction budget as [| budget IH]; intros locals w Htrunc.
  - simpl. rewrite Htrunc. exists []. rewrite app_nil_r. by split_and!.
  - simpl. rewrite Htrunc, bind_run, send_run. cbv zeta.
    set (cmd := S3Wrapper.command locals).
    destruct (reply p (length (requests (events w))) cmd) as [page | e]; cbv iota beta.
    + set (locals' := {| listObjectsParams := _ |}).
      set (w' := with_events _ w).
      assert (isTruncated locals' = default false (resp_IsTruncated page)) as Hnext by done.
      clearbody locals'.
      destruct (default false (resp_IsTruncated page)) eqn:Hmore.
      * destruct (IH locals' w' Hnext) as (asked & Hev & Hreq & Hlen & Hpages & Hpending).
        exists (Requested cmd (Fulfilled page) :: asked). split_and!.
        -- rewrite Hev. subst w'. cbn [events with_events]. by rewrite <- app_assoc.
        -- change (requests (Requested cmd (Fulfilled page) :: asked))
             with (Requested cmd (Fulfilled page) :: requests asked). by rewrite Hreq.
        -- simpl. lia.
        -- cbn [pagewise]. by rewrite Hmore.
        -- intros Hp. simpl. by rewrite Hpending.
      * assert (S3Wrapper.whileTruncated budget locals' p w' = (Returned (results locals'), w'))
          as ->.
        { destruct budget; simpl; by rewrite Hnext. }
        exists [Requested cmd (Fulfilled page)]. split_and!.
        -- done.
        -- done.
        -- simpl. lia.
        -- cbn [pagewise fst]. rewrite Hmore. split; [done | by eexists].
        -- done.
    + exists [Requested cmd (Rejected e)]. split_and!; [done | done | simpl; lia | | done].
      cbn [pagewise fst]. done.
Qed.

Lemma pagewise_void {A} (asked : list Event) (outcome : Completion A) :
  pagewise asked outcome ->
  pagewise asked (match outcome with
                  | Returned _ => Returned tt
                  | Threw e => Threw e
                  | Pending => Pending
                  end).
Proof.
  induction asked as [| ev asked IH]; cbn [pagewise].
  - by intros ->.
  - destruct ev as [cmd [page | e] | |]; [| | done | done].
    + destruct (default false (resp_IsTruncated page)); [done |].
      intros (-> & a & ->). split; [done | by eexists].
    + by intros (-> & ->).
Qed.

Lemma void_outcome {A} (m : Async A) (p : Platform) (w : World) :
  (void m p w).1 = match (m p w).1 with
                   | Returned _ => Returned tt
                   | Threw e => Threw e
                   | Pending => Pending
                   end.
Proof. unfold void. rewrite bind_run. by destruct (m p w) as [[a | e |] w']. Qed.

(** What [getS3()] does, in full. *)
Lemma getS3_run (p : Platform) (w : World) :
  S3Wrapper.getS3 p w =
  if s3Client w then (Returned tt, w)
  else match construct p S3Client with
       | Some e =>
           (Threw e, with_events (fun evs => evs ++ [Constructed S3Client (Some e)]) w)
       | None =>
           (Returned tt,
            with_s3Client true
              (with_events (fun evs => evs ++ [Constructed S3Client None]) w))
       end.
Proof.
  unfold S3Wrapper.getS3, S3Wrapper.initialise. rewrite bind_run. unfold get.
  cbv iota beta. destruct (s3Client w); [done |].
  rewrite bind_run. unfold newClient. by destruct (construct p S3Client).
Qed.

Lemma getListOfFileKeys_asked (budget : nat) (bucket : string) (prefix : option string)
    (p : Platform) (w : World) :
  let run := S3Wrapper.getListOfFileKeys budget bucket prefix p w in
  let asked := requests (since w run.2) in
  length asked ≤ budget ∧
  if available S3Client (s3Client w) p
  then pagewise asked run.1 ∧ (run.1 = Pending -> length asked = budget)
  else asked = [] ∧ ∃ e, run.1 = Threw e.
Proof.
  cbv zeta. unfold S3Wrapper.getListOfFileKeys, available.
  set (locals := {| listObjectsParams := _ |}).
  rewrite bind_run, getS3_run.
  destruct (s3Client w) eqn:Hs3; cbn [orb].
  - destruct (whileTruncated_asked budget locals p w eq_refl)
      as (asked & Hev & Hreq & Hlen & Hpages & Hpending).
    by rewrite (since_app _ _ _ Hev), Hreq.
  - destruct (construct p S3Client) as [e |] eqn:Hc.
    + rewrite bool_decide_eq_false_2 by done. cbn [fst snd].
      since_new. cbn. split; [lia |]. split; [done | by eexists].
    + rewrite bool_decide_eq_true_2 by done.
      set (w1 := with_s3Client true _).
      destruct (whileTruncated_asked budget locals p w1 eq_refl)
        as (asked & Hev & Hreq & Hlen & Hpages & Hpending).
      assert (since w (S3Wrapper.whileTruncated budget locals p w1).2 =
              Constructed S3Client None :: asked) as ->.
      { apply since_app. rewrite Hev. subst w1. cbn [events with_events with_s3Client].
        by rewrite <- app_assoc. }
      change (requests (Constructed S3Client None :: asked)) with (requests asked).
      by rewrite Hreq.
Qed.

(** C5, amended. An operation whose request is rejected throws what it was
    rejected with. A public wrapper operation other than
    [writeMessageBatchToFifoQueue] and [getListOfFileKeys] returns or throws,
    after exactly one request when it gets as far as sending and after none
    otherwise. [writeMessageBatchToFifoQueue] issues one request per chunk
    of ten messages: all of them when it returns, and when it throws at
    least one, the last of which was rejected. [getListOfFileKeys] issues
    one request per page: each but the last was answered by a truncated
    page, and the call returns on a page that is not truncated. *)
Theorem perform_requests (T : TableClass) (op : Operation) (p : Platform) (w : World) :
  let run := perform op p w in
  let asked := requests (since w run.2) in
  (∀ cmd e, Requested cmd (Rejected e) ∈ asked -> run.1 = Threw e) ∧
  match op with
  | Sqs_writeMessageBatchToFifoQueue _ messages =>
      let batches := (length messages + 9) / 10 in
      match run.1 with
      | Returned _ => length asked = batches
      | Threw e =>
          1 ≤ length asked ≤ batches ∧ ∃ cmd, last asked = Some (Requested cmd (Rejected e))
      | Pending => False
      end
  | S3_getListOfFileKeys budget _ _ =>
      length asked ≤ budget ∧
      if available S3Client (s3Client w) p
      then pagewise asked run.1 ∧ (run.1 = Pending -> length asked = budget)
      else asked = [] ∧ ∃ e, run.1 = Threw e
  | _ => length asked = (if sends op p w then 1 else 0) ∧ run.1 ≠ Pending
  end.
Proof.
  cbv zeta. split.
  - intros cmd e Hin. apply requests_elem_of in Hin.
    destruct (DynDb_init_or_not op) as [-> | Hop].
    + exfalso. destruct (DynDb_init_no_request p w) as (new & Hev & Hlen).
      simpl in Hin. rewrite (since_app _ _ _ Hev) in Hin.
      apply elem_of_requests in Hin; [| done].
      destruct (requests new); [by apply elem_of_nil in Hin | simpl in Hlen; lia].
    + destruct (perform_propagates op Hop p w) as (new & Hev & Hfail).
      rewrite (since_app _ _ _ Hev) in Hin.
      apply Hfail. unfold failures. apply list_elem_of_omap.
      by exists (Requested cmd (Rejected e)).
  - destruct op.
    all: try (split; [by apply perform_count | by apply perform_settles]).
    + (* the batches *)
      cbn [perform]. unfold SqsWrapper.writeMessageBatchToFifoQueue.
      destruct (forEachChunk_trace queueUrl (chunk messages 10) p w) as (sent & Hev & Hout).
      rewrite (since_app _ _ _ Hev).
      pose proof (chunk_length messages 10 ltac:(lia)) as Hlen.
      change (10 - 1) with 9 in Hlen.
      destruct (SqsWrapper.forEachChunk queueUrl (chunk messages 10) p w).1 as [[] | e |].
      * destruct Hout as [Hcmds Hsent].
        rewrite only_requests by (by rewrite Hcmds, Hsent).
        by rewrite Hsent, length_fmap.
      * destruct Hout as (k & cmd & Hk & Hcmds & Hsent & Hlast).
        rewrite length_fmap in Hk.
        rewrite only_requests by (rewrite Hcmds, length_take, length_fmap; lia).
        split; [lia | by exists cmd].
      * done.
    + (* the pages *)
      cbn [perform]. rewrite since_void, void_outcome.
      destruct (getListOfFileKeys_asked budget bucket prefix0 p w) as [Hlen Hpages].
      split; [done |].
      destruct (available S3Client (s3Client w) p).
      * destruct Hpages as [Hpages Hpending]. split.
        -- by apply pagewise_void.
        -- intros Hp. apply Hpending.
           by destruct (S3Wrapper.getListOfFileKeys budget bucket prefix0 p w).1.
      * destruct Hpages as [Hnone [e He]]. split; [done |]. exists e. by rewrite He.
Qed.

(** ** Catch and rethrow *)

(** [DynDb.init] catches what the constructor throws, logs it and returns
    normally. *)
Lemma DynDb_init_swallows :
  let run := @perform TestDynDb DynDb_init noDynamo fresh in
  outOfMemory ∈ failures (since fresh run.2) ∧
  run.1 = Returned tt ∧ run.1 ≠ Threw outOfMemory ∧
  ddb run.2 = false ∧
  console run.2 = [ConsoleWarn "DynamoDB config";
                   ConsoleError "Failed to initialise dynamodb" outOfMemory].
Proof. vm_compute. split_and!; try done. apply list_elem_of_here. Qed.

(** C6, amended. In every public wrapper operation other than [DynDb.init],
    a failure met inside the operation (a rejected request, a constructor
    that throws, an error received by a [catch] block) is what the operation
    throws. [DynDb.init] returns normally whatever happens: a failure to
    construct the client is on the trace and on the console, after the line
    that announces the configuration, and nowhere else; the client is
    defined afterwards only if it was before or the constructor succeeded. *)
Theorem perform_rethrows (T : TableClass) (op : Operation) (p : Platform) (w : World) :
  let run := perform op p w in
  match op with
  | DynDb_init =>
      run.1 = Returned tt ∧
      ddb run.2 = ddb w || bool_decide (construct p DynamoDBClient = None) ∧
      console run.2 =
        console w ++ ConsoleWarn "DynamoDB config" ::
        (if ddb w then []
         else match construct p DynamoDBClient with
              | Some e => [ConsoleError "Failed to initialise dynamodb" e]
              | None => []
              end) ∧
      ∀ e, ddb w = false -> construct p DynamoDBClient = Some e ->
           e ∈ failures (since w run.2)
  | _ => ∀ e, e ∈ failures (since w run.2) -> run.1 = Threw e
  end.
Proof.
  cbv zeta.
  destruct (DynDb_init_or_not op) as [-> | Hop].
  - apply DynDb_init_run.
  - assert (∀ e, e ∈ failures (since w (perform op p w).2) -> (perform op p w).1 = Threw e)
      as Hall.
    { intros e He.
      destruct (perform_propagates op Hop p w) as (new & Hev & Hfail).
      rewrite (since_app _ _ _ Hev) in He. by apply Hfail. }
    by destruct op.
Qed.

(** ** The handler *)

Lemma getRecord_settles : Settles getRecord.
Proof. unfold getRecord. settles. Qed.

Lemma getTree_settles : Settles TestDao.getTree.
Proof. unfold TestDao.getTree. settles. Qed.

Lemma createFileInBucket_settles bucket contents filename contentType encoding :
  Settles (S3Wrapper.createFileInBucket bucket contents filename contentType encoding).
Proof.
  unfold S3Wrapper.createFileInBucket, S3Wrapper.getS3, S3Wrapper.initialise, log, get.
  settles.
Qed.

(** One [try { await call } catch (err) { errors.push(err) }] of the handler. *)
Lemma attempt_run {A} (call : Async A) (errors : list Exception) (p : Platform) (w : World) :
  (call p w).1 ≠ Pending ->
  try_catch (call;; ret errors) (fun err => ret (errors ++ [err])) p w =
  (Returned (errors ++ option_list (thrown (call p w).1)),
   afterCatch (fun _ => None) (call p w)).
Proof.
  intros Hsettles. rewrite try_catch_run, bind_run. unfold afterCatch.
  destruct (call p w) as [[x | e |] w1]; simpl; [by rewrite app_nil_r | done | done].
Qed.

(** The same with a [catch] block that also logs. *)
Lemma attempt_logged_run {A} (call : Async A) (errors : list Exception)
    (line : Exception -> LogEntry) (p : Platform) (w : World) :
  (call p w).1 ≠ Pending ->
  try_catch (call;; ret errors)
            (fun err => let errors := errors ++ [err] in log (line err);; ret errors) p w =
  (Returned (errors ++ option_list (thrown (call p w).1)),
   afterCatch (fun err => Some (line err)) (call p w)).
Proof.
  intros Hsettles. rewrite try_catch_run, bind_run. unfold afterCatch.
  destruct (call p w) as [[x | e |] w1]; simpl; [by rewrite app_nil_r | done | done].
Qed.

Example handler_all_well :
  (handler obliging fresh).1 =
  Returned {| statusCode := 200;
              headers := {[ "Content-Type" := "text/plain" ]};
              body := "Hello, World! Your request was received" |}.
Proof. reflexivity. Qed.

Example handler_queue_down :
  (handler noQueue fresh).1 =
  Returned {| statusCode := 400;
              headers := {[ "Content-Type" := "text/plain" ]};
              body := "QueueDoesNotExist" |} ∧
  commands (events (handler noQueue fresh).2) =
    [ GetItemCommand "table" {[ "pk" := AttrS "something"; "sk" := AttrS "else" ]};
      OneTableGet "TestModel" {[ "pk" := "test"; "sk" := "test" ]};
      PutObjectCommand {| put_Bucket := "bucket"; put_Key := "file.txt";
                          put_Body := Some "some text";
                          ContentType := Some "text/plain"; ContentEncoding := None |};
      SendMessageBatchCommand
        [ {| Id := "msg-0"; MessageBody := "hello"; MessageGroupId := "group1" |} ]
        "https://queue.fifo" ].
Proof. split; by vm_compute. Qed.

(** C1. The handler makes its four calls in order, each in the world the
    previous one (and its [catch] block) left. It answers 200 exactly when
    none of the four threw, and otherwise 400 with a body that serialises the
    errors thrown, in the order of the calls. *)
Theorem handler_reports (p : Platform) (w : World) :
  let r1 := getRecord p w in
  let r2 := TestDao.getTree p (afterCatch (fun _ => None) r1) in
  let r3 := S3Wrapper.createFileInBucket (BUCKET_NAME (env p)) (Some "some text") "file.txt"
              (Some "text/plain") None
              p (afterCatch (fun err => Some (ConsoleLog (JSON_stringify p (OneError err)))) r2) in
  let r4 := SqsWrapper.writeMessageBatchToFifoQueue (QUEUE_URL (env p))
              [ {| groupId := "group1"; message := "hello" |} ]
              p (afterCatch (fun _ => None) r3) in
  let errors := omap id [thrown r1.1; thrown r2.1; thrown r3.1; thrown r4.1] in
  ∃ response,
    handler p w = (Returned response, afterCatch (fun _ => None) r4) ∧
    (statusCode response = 200 ↔
       thrown r1.1 = None ∧ thrown r2.1 = None ∧ thrown r3.1 = None ∧ thrown r4.1 = None) ∧
    match errors with
    | [] => statusCode response = 200
    | _ :: _ =>
        statusCode response = 400 ∧
        body response = JSON_stringify p (ErrorArray errors)
    end.
Proof.
  intros r1 r2 r3 r4 errors. unfold handler.
  rewrite bind_run. unfold ask at 1. cbv iota beta.
  rewrite bind_run, attempt_run by apply getRecord_settles. fold r1. cbv iota beta.
  rewrite bind_run, attempt_logged_run by apply getTree_settles. fold r2. cbv iota beta.
  rewrite bind_run, attempt_run by apply createFileInBucket_settles. fold r3. cbv iota beta.
  rewrite bind_run, attempt_run by apply forEachChunk_settles. fold r4. cbv iota beta.
  subst errors.
  generalize (afterCatch (fun _ => None) r4) as w4.
  generalize (thrown r1.1) as t1, (thrown r2.1) as t2, (thrown r3.1) as t3,
             (thrown r4.1) as t4.
  intros [e1 |] [e2 |] [e3 |] [e4 |] w4; simpl.
  all: eexists; split; [reflexivity |]; simpl; split; [| done].
  all: split; [intros ? | intros (? & ? & ? & ?)]; done.
Qed.

(** ** DynDb: what the read operations return *)

Lemma deleteKeyFromItem_lookup (record : JsRecord) :
  DynDb.deleteKeyFromItem record !! "PK" = None ∧
  DynDb.deleteKeyFromItem record !! "SK" = None ∧
  ∀ k, k ≠ "PK" -> k ≠ "SK" -> DynDb.deleteKeyFromItem record !! k = record !! k.
Proof.
  unfold DynDb.deleteKeyFromItem. split_and!.
  - rewrite lookup_delete_ne by done. apply lookup_delete_eq.
  - apply lookup_delete_eq.
  - intros k Hpk Hsk. by rewrite !lookup_delete_ne.
Qed.

(** What [await this.ddb?.send(cmd)] does. *)
Lemma ddb_send_run (cmd : Command) (p : Platform) (w : World) :
  DynDb.ddb_send cmd p w =
  if ddb w then
    let answer := reply p (length (requests (events w))) cmd in
    (match answer with Fulfilled r => Returned (Some r) | Rejected e => Threw e end,
     with_events (fun evs => evs ++ [Requested cmd answer]) w)
  else (Returned None, w).
Proof.
  unfold DynDb.ddb_send. rewrite bind_run. unfold get. cbv iota beta.
  destruct (ddb w); [| done].
  rewrite bind_run, send_run. cbv zeta. by destruct (reply p _ cmd).
Qed.

Lemma since_with_events (w : World) (new : list Event) :
  since w (with_events (fun evs => evs ++ new) w) = new.
Proof. by apply since_app. Qed.

(** C8. When the query of [getItemByPK] is answered, the operation returns
    [undefined] if the answer holds no items and throws an [Error] if it holds
    more than one. If it holds exactly one, that item is unmarshalled: what
    the library throws at it the operation throws, and otherwise it returns
    the record with its [PK] and [SK] properties removed and every other
    property kept. *)
Theorem getItemByPK_cases (T : TableClass) (pkVal : string) (p : Platform) (w : World)
    (cmd : Command) (result : Response) :
  let run := DynDb.getItemByPK pkVal p w in
  since w run.2 = [Requested cmd (Fulfilled result)] ->
  match resp_Items result with
  | None | Some [] => run.1 = Returned None
  | Some [item] =>
      match unmarshall p item with
      | Fulfilled native =>
          ∃ record, run.1 = Returned (Some record) ∧
            record !! "PK" = None ∧ record !! "SK" = None ∧
            ∀ k, k ≠ "PK" -> k ≠ "SK" -> record !! k = native !! k
      | Rejected e => run.1 = Threw e
      end
  | Some items =>
      run.1 = Threw (Error ("Multiple items (" +:+ numberToString (length items)
                            +:+ ") found with PK '" +:+ pkVal +:+ "'"))
  end.
Proof.
  cbv zeta. unfold DynDb.getItemByPK.
  rewrite bind_run. unfold ask. cbv iota beta zeta.
  rewrite bind_run, ddb_send_run.
  destruct (ddb w); cbv zeta iota beta.
  - destruct (reply p _ _) as [r | e]; cbv iota beta.
    + destruct (resp_Items r) as [[| item [| item' items]] |] eqn:Hitems; simpl;
        rewrite ?Hitems; simpl; rewrite ?bind_run.
      all: try match goal with
               | |- context [settle (unmarshall ?p0 ?first)] =>
                   destruct (unmarshall p0 first) as [native | e] eqn:Hnative; cbn [settle]
               end.
      all: unfold ret, throw; cbn [fst snd]; rewrite since_with_events;
        intros [= <- <-]; rewrite Hitems; try done.
      all: rewrite Hnative; try done.
      eexists. split; [reflexivity |]. apply deleteKeyFromItem_lookup.
    + cbn [fst snd]. rewrite since_with_events. by intros [=].
  - simpl. by rewrite since_refl.
Qed.

(** A table that holds the one record [profile] under its partition key. *)
Lemma getItemByPK_cases_witness :
  let run := @DynDb.getItemByPK TestDynDb "user#1" (answering (found [profile])) initialised in
  since initialised run.2 =
    [Requested (QueryCommand (@DynDb.byPKQuery "table" "user#1"))
               (Fulfilled (found [profile]))] ∧
  ∃ record, run.1 = Returned (Some record) ∧
    record !! "PK" = None ∧ record !! "SK" = None ∧
    ∀ k, k ≠ "PK" -> k ≠ "SK" -> record !! k = profileRecord !! k.
Proof.
  assert (since initialised
            (@DynDb.getItemByPK TestDynDb "user#1" (answering (found [profile])) initialised).2 =
          [Requested (QueryCommand (@DynDb.byPKQuery "table" "user#1"))
                     (Fulfilled (found [profile]))]) as Hsince
    by (vm_compute; reflexivity).
  split; [exact Hsince |].
  pose proof (getItemByPK_cases TestDynDb "user#1" (answering (found [profile])) initialised
                _ _ Hsince) as Hcases.
  cbn [resp_Items found] in Hcases.
  replace (unmarshall (answering (found [profile])) profile)
    with (Fulfilled profileRecord : Settled JsRecord) in Hcases
    by (vm_compute; reflexivity).
  exact Hcases.
Defined.

(** C2, on the code. [getItemsByPK] hands back the records of the answer as
    [unmarshall] produced them: on a table holding [profile], the record
    returned still carries [PK] and [SK], where [getItemByPK], asked the same
    question, returns it without them. *)
Theorem getItemsByPK_keeps_keys :
  let run := @DynDb.getItemsByPK TestDynDb "user#1" (answering (found [profile])) initialised in
  let sibling := @DynDb.getItemByPK TestDynDb "user#1" (answering (found [profile])) initialised in
  ∃ record stripped,
    run.1 = Returned [record] ∧
    record !! "PK" = Some (JsString "user#1") ∧
    record !! "SK" = Some (JsString "profile") ∧
    sibling.1 = Returned (Some stripped) ∧
    stripped !! "PK" = None ∧ stripped !! "SK" = None ∧
    stripped !! "name" = record !! "name".
Proof.
  eexists _, _. split_and!; [vm_compute; reflexivity | by vm_compute ..].
Qed.

(** ** DynDb: key schema of the queries *)

(** A request through [this.ddb?.send] followed by code that makes none. *)
Lemma ddb_send_then {A} (cmd : Command) (k : option Response -> Async A)
    (p : Platform) (w : World) :
  (∀ r, Silent (k r)) ->
  since w ((DynDb.ddb_send cmd ≫= k) p w).2 =
  if ddb w then [Requested cmd (reply p (length (requests (events w))) cmd)] else [].
Proof.
  intros Hk. rewrite bind_run, ddb_send_run.
  destruct (ddb w); cbv zeta.
  - destruct (reply p _ cmd) as [r | e]; cbv iota beta.
    + apply since_app. by rewrite Hk.
    + by apply since_app.
  - apply since_app. by rewrite Hk, app_nil_r.
Qed.

(** The trace of an operation of [DynDb]: its request when the client is
    defined; [putItem], [getItem] and [deleteItem] get as far as that when
    [marshall] accepts their record. *)
Ltac table_trace :=
  unfold perform; rewrite ?since_void;
  unfold DynDb.putItem, DynDb.getItem, DynDb.deleteItem,
    DynDb.getItemByPK, DynDb.getItemsByPK, DynDb.getItemsWithSKBeginning,
    DynDb.getItemsWithSKBetween, DynDb.getItemBySK, DynDb.getAllByPKPrefixAndSK,
    DynDb.unmarshallAll;
  rewrite bind_run; unfold ask; cbv iota beta zeta;
  try (rewrite bind_run, settle_run;
       match goal with
       | |- context [marshall ?p ?record] =>
           destruct (marshall p record) as [marshalled | refused] eqn:?
       end;
       cbv iota beta; cbn [snd]);
  rewrite ?ddb_send_then by (intros ?; silent).

Ltac query_trace := table_trace.

(** The names a query defines, when it defines one or two. *)
Lemma names_one (placeholder name : string) (attributes : list string) :
  name ∈ attributes ->
  ∀ placeholder' name' : string,
    ({[ placeholder := name ]} : gmap string string) !! placeholder' = Some name' ->
    name' ∈ attributes.
Proof. intros Hin ? ? [_ <-]%lookup_singleton_Some. done. Qed.

Lemma names_two (placeholder1 name1 placeholder2 name2 : string) (attributes : list string) :
  name1 ∈ attributes -> name2 ∈ attributes ->
  ∀ placeholder' name' : string,
    ({[ placeholder1 := name1; placeholder2 := name2 ]} : gmap string string) !! placeholder'
      = Some name' ->
    name' ∈ attributes.
Proof.
  intros Hin1 Hin2 ? ? [[_ <-] | [_ [_ <-]%lookup_singleton_Some]]%lookup_insert_Some; done.
Qed.

(** C4. A query operation of [DynDb] issues, when the client is defined,
    exactly one request (as do [putItem], [getItem] and [deleteItem] when
    [marshall] accepts their record), and whatever it requests is a query
    with the key condition of the operation, which addresses the partition
    key under the name [PK] and the sort key under the name [SK] and no
    other attribute.
    The two operations that start from the sort key go to the index [GSI1],
    the others to the table; [getItemsWithSKBetween] alone takes other
    attribute names or an index, and only those its caller passes. The
    operations that are no queries ([putItem], [getItem], [deleteItem]) name
    no attribute and no index: what they request carries the marshalled
    record only. *)
Theorem queries_key_schema (T : TableClass) (op : Operation) (p : Platform) (w : World) :
  let new := since w (perform op p w).2 in
  (if tableOperation op && sends op p w then ∃ cmd answer, new = [Requested cmd answer]
   else True) ∧
  ∀ cmd answer, Requested cmd answer ∈ new ->
    match op with
    | DynDb_getItemByPK _ | DynDb_getItemsByPK _ =>
        keySchema "#PK = :pkVal" ["PK"] None cmd
    | DynDb_getItemsWithSKBeginning _ _ =>
        keySchema "#PK = :pkVal AND begins_with(#SK , :skVal)" ["PK"; "SK"] None cmd
    | DynDb_getItemsWithSKBetween _ partitionKeyName sortKeyName _ _ indexName =>
        keySchema "#PK = :pkVal AND #SK BETWEEN :skValFrom AND :skValTo"
                  [default "PK" partitionKeyName; default "SK" sortKeyName]
                  (if truthy indexName then indexName else None) cmd
    | DynDb_getItemBySK _ =>
        keySchema "#SK = :skVal" ["SK"] (Some "GSI1") cmd
    | DynDb_getAllByPKPrefixAndSK _ _ =>
        keySchema "#SK = :skVal and begins_with(#PK, :pkPrefix)" ["SK"; "PK"]
                  (Some "GSI1") cmd
    | DynDb_putItem record =>
        ∃ marshalled, marshall p record = Fulfilled marshalled ∧
          cmd = PutItemCommand (getTableName (env p)) marshalled
    | DynDb_getItem record =>
        ∃ marshalled, marshall p record = Fulfilled marshalled ∧
          cmd = GetItemCommand (getTableName (env p)) marshalled
    | DynDb_deleteItem record =>
        ∃ marshalled, marshall p record = Fulfilled marshalled ∧
          cmd = DeleteItemCommand (getTableName (env p)) marshalled
    | _ => True
    end.
Proof.
  cbv zeta. destruct op; try (split; [exact I | done]).
  all: cbn [tableOperation queries sends refusal].
  all: table_trace.
  all: try (rewrite since_refl).
  all: destruct (ddb w); cbn [andb];
    rewrite ?bool_decide_eq_true_2, ?bool_decide_eq_false_2 by done;
    (split; [by eauto |]).
  all: intros cmd answer Hin; try by apply elem_of_nil in Hin.
  all: apply list_elem_of_singleton in Hin; injection Hin as -> _.
  all: try by eexists.
  all: eexists; split_and!; [reflexivity | reflexivity | reflexivity | | reflexivity].
  all: first [ apply names_one | apply names_two ]; set_solver.
Qed.

(** ** SsmWrapper: the parameter cache *)

Ltac run_ssm :=
  unfold SsmWrapper.getParamValue, SsmWrapper.getParam, SsmWrapper.init,
    SsmWrapper.cache_get, SsmWrapper.cache_set, try_catch, mbind, Async_bind, bind,
    send, settle, newClient, ask, get, log, modify, ret, throw;
  cbn [fst snd ssm cache events with_ssm with_events with_cache with_console].

(** A hit: the client is there and the cache holds a non-empty value. *)
Lemma getParamValue_hit (paramName : string) (decrypt : option bool) (value : string)
    (p : Platform) (w : World) :
  ssm w = true -> cache w !! paramName = Some value -> value ≠ "" ->
  SsmWrapper.getParamValue paramName decrypt p w = (Returned (Some value), w).
Proof.
  intros Hssm Hcache Hvalue. run_ssm. rewrite Hssm, Hcache. simpl.
  apply String.eqb_neq in Hvalue. by rewrite Hvalue.
Qed.

(** What a run that returns a value leaves behind. *)
Lemma getParamValue_leaves (paramName : string) (decrypt : option bool) (value : string)
    (p : Platform) (w : World) :
  (SsmWrapper.getParamValue paramName decrypt p w).1 = Returned (Some value) ->
  ssm (SsmWrapper.getParamValue paramName decrypt p w).2 = true ∧
  cache (SsmWrapper.getParamValue paramName decrypt p w).2 !! paramName = Some value.
Proof.
  run_ssm.
  destruct (ssm w) eqn:Hssm; [| destruct (construct p SSMClient) eqn:Hc];
    cbn [fst snd ssm cache events with_ssm with_events with_cache with_console];
    try done.
  all: destruct (cache w !! paramName) as [v |] eqn:Hcache; cbn [truthy];
    [destruct (String.eqb v "") eqn:Hv |]; cbn [negb].
  all: try (destruct (reply p _ _) as [result | e]; cbn [fst snd]; [| done];
            destruct (mjoin (resp_Parameter result)) as [fetched |];
            cbn [fst snd cache with_cache]; [| done];
            intros [= ->]; split; [done | apply lookup_insert_eq]).
  all: intros [= ->]; by split.
Qed.

(** C7. A call of [getParamValue] issues at most one request. Without a
    client (none is defined and the constructor throws) it throws at once.
    Otherwise, when the cache holds a truthy value under the name, no
    request is issued and that value is returned, the cache untouched; and
    when it does not, one [GetParameter] request is issued: the value of the
    answer is returned and stored under the name, an answer without a value
    ends in the [TypeError] of the cache, with nothing stored, and a
    rejection is thrown with the cache as it was. And once a call has
    returned a non-empty value, a further call with the same name returns it
    again and changes nothing: it issues no request. *)
Theorem getParamValue_cache (paramName : string) (decrypt : option bool)
    (p : Platform) (w : World) :
  let run := SsmWrapper.getParamValue paramName decrypt p w in
  let cached := cache w !! paramName in
  length (requests (since w run.2)) ≤ 1 ∧
  (if negb (available SSMClient (ssm w) p) then
     requests (since w run.2) = [] ∧ cache run.2 = cache w ∧
     ∃ e, construct p SSMClient = Some e ∧ run.1 = Threw e
   else if truthy cached then
     requests (since w run.2) = [] ∧ cache run.2 = cache w ∧ run.1 = Returned cached
   else
     ∃ answer,
       requests (since w run.2) =
         [Requested (GetParameterCommand paramName (default true decrypt)) answer] ∧
       match answer with
       | Fulfilled result =>
           match mjoin (resp_Parameter result) with
           | Some value =>
               run.1 = Returned (Some value) ∧
               cache run.2 = <[paramName := value]> (cache w)
           | None =>
               run.1 = Threw (TypeError (NanoCache_undefined p)) ∧
               ∀ name value, cache run.2 !! name = Some value -> cache w !! name = Some value
           end
       | Rejected e => run.1 = Threw e ∧ cache run.2 = cache w
       end) ∧
  (∀ value again, run.1 = Returned (Some value) -> value ≠ "" ->
     SsmWrapper.getParamValue paramName again p run.2 = (Returned (Some value), run.2)).
Proof.
  cbv zeta. split_and!.
  - destruct (perform_atmost (H := TestDynDb) (Ssm_getParamValue paramName decrypt) p w)
      as (new & Hev & Hlen).
    cbn [perform] in Hev. rewrite <- (since_app _ _ _ Hev), since_void in Hlen.
    exact Hlen.
  - unfold available. run_ssm.
    destruct (ssm w) eqn:Hssm; [| destruct (construct p SSMClient) as [e |] eqn:Hc]; world;
      rewrite ?bool_decide_eq_true_2, ?bool_decide_eq_false_2 by done; cbn [negb].
    2: { since_new. cbn. split_and!; [done | done | by eexists]. }
    all: destruct (truthy (cache w !! paramName)) eqn:Hcached; world.
    1, 3: first [rewrite since_refl | since_new]; by cbn.
    all: destruct (reply p _ _) as [result | e] eqn:Hreply;
      [exists (Fulfilled result) | exists (Rejected e)]; world.
    all: try (destruct (mjoin (resp_Parameter result)) as [fetched |]; world).
    all: split; [since_new; by cbn | by split].
  - intros value again Hrun Hvalue.
    destruct (getParamValue_leaves _ _ _ _ _ Hrun) as [Hssm Hcache].
    by apply getParamValue_hit.
Qed.

(** ** S3Wrapper.getListOfFileKeys *)

(** [getS3()] issues no request, and returns or throws. *)
Lemma getS3_trace (p : Platform) (w : World) :
  ∃ evs, events (S3Wrapper.getS3 p w).2 = events w ++ evs ∧ requests evs = [] ∧
         (S3Wrapper.getS3 p w).1 ≠ Pending.
Proof.
  unfold S3Wrapper.getS3, S3Wrapper.initialise. rewrite bind_run. unfold get.
  cbv iota beta. destruct (s3Client w).
  - exists []. by rewrite app_nil_r.
  - rewrite bind_run. unfold newClient.
    destruct (construct p S3Client) as [e |]; by eexists.
Qed.

Lemma pushKeys_keysOf (page : Response) (results : list string) :
  S3Wrapper.pushKeys (resp_Contents page) results = results ++ keysOf page.
Proof.
  unfold S3Wrapper.pushKeys, keysOf. f_equal.
  induction (default [] (resp_Contents page)) as [| file files IH]; [done |].
  cbn [omap list_omap]. fold (@omap list _ S3Object string) in *. rewrite IH. unfold truthy.
  destruct (Key file) as [key |]; [| done]. by destruct (String.eqb key "").
Qed.

Lemma pageRequests_length (params : ListObjectsV2CommandInput) (pages : list Response) :
  length (pageRequests params pages) = length pages.
Proof.
  revert params. induction pages as [| page pages IH]; intros params; [done |].
  simpl. by rewrite IH.
Qed.

Lemma whileTruncated_pages (pages : list Response) (last : Response) :
  ∀ (budget : nat) (locals : Locals) (p : Platform) (w : World),
  isTruncated locals = true ->
  (∀ i cmd page,
     pageRequests (listObjectsParams locals) (pages ++ [last]) !! i = Some cmd ->
     (pages ++ [last]) !! i = Some page ->
     reply p (length (requests (events w)) + i) cmd = Fulfilled page) ->
  Forall (fun page => resp_IsTruncated page = Some true) pages ->
  resp_IsTruncated last ≠ Some true ->
  length (pages ++ [last]) ≤ budget ->
  (S3Wrapper.whileTruncated budget locals p w).1 =
    Returned (results locals ++ concat (keysOf <$> pages ++ [last])) ∧
  ∃ new, events (S3Wrapper.whileTruncated budget locals p w).2 = events w ++ new ∧
         commands new = pageRequests (listObjectsParams locals) (pages ++ [last]) ∧
         length new = length (pages ++ [last]).
Proof.
  induction pages as [| page pages IH]; intros budget locals p w Htrunc Hreply Hpages Hlast Hbudget.
  - destruct budget as [| budget]; [simpl in Hbudget; lia |].
    pose proof (Hreply 0 _ last eq_refl eq_refl) as Hfirst. rewrite Nat.add_0_r in Hfirst.
    simpl. rewrite Htrunc, bind_run, send_run. unfold S3Wrapper.command. cbv zeta.
    rewrite Hfirst. cbv iota beta.
    assert (default false (resp_IsTruncated last) = false) as Hdone.
    { by destruct (resp_IsTruncated last) as [[|] |]. }
    destruct budget; simpl; rewrite Hdone; simpl.
    all: rewrite pushKeys_keysOf, app_nil_r; split; [done |].
    all: eexists; split; [reflexivity |]; done.
  - destruct budget as [| budget]; [simpl in Hbudget; lia |].
    apply Forall_cons in Hpages as [Hpage Hpages].
    pose proof (Hreply 0 _ page eq_refl eq_refl) as Hfirst. rewrite Nat.add_0_r in Hfirst.
    simpl. rewrite Htrunc, bind_run, send_run. unfold S3Wrapper.command. cbv zeta.
    rewrite Hfirst. cbv iota beta.
    set (locals' := {| listObjectsParams := _ |}).
    set (w' := with_events _ w).
    destruct (IH budget locals' p w') as (Hout & new & Hev & Hcmds & Hlen).
    + subst locals'. simpl. by rewrite Hpage.
    + intros i cmd page' Hcmd Hpage'.
      assert (length (requests (events w')) + i = length (requests (events w)) + S i) as ->.
      { subst w'. simpl. rewrite requests_app, length_app. simpl. lia. }
      by apply Hreply.
    + done.
    + done.
    + simpl in Hbudget. lia.
    + rewrite Hout. split.
      * subst locals'. simpl. by rewrite pushKeys_keysOf, <- app_assoc.
      * exists (Requested (S3Wrapper.command locals) (Fulfilled page) :: new).
        split; [| split].
        -- rewrite Hev. subst w'. simpl. by rewrite <- app_assoc.
        -- simpl. by rewrite Hcmds.
        -- simpl. by rewrite Hlen.
Qed.

(** C9. Let a bucket listing come as a sequence of pages, all truncated but
    the last, the service answering the first request with the first page
    and the request that carries the continuation token of a page with the
    page after it. Then [getListOfFileKeys] returns as soon as its loop is
    given as many iterations as there are pages; it returns the keys of all
    pages in order, and the requests it has made are one per page, the first
    without a token and each further one with the token of the page before. *)
Theorem getListOfFileKeys_pages (bucket : string) (prefix : option string)
    (p : Platform) (w : World) (pages : list Response) (last : Response) (budget : nat) :
  let first := {| Bucket := bucket; MaxKeys := Some 100; Prefix := prefix;
                  ContinuationToken := None |} in
  let run := S3Wrapper.getListOfFileKeys budget bucket prefix p w in
  s3Client w = true ∨ construct p S3Client = None ->
  (∀ i cmd page,
     pageRequests first (pages ++ [last]) !! i = Some cmd ->
     (pages ++ [last]) !! i = Some page ->
     reply p (length (requests (events w)) + i) cmd = Fulfilled page) ->
  Forall (fun page => resp_IsTruncated page = Some true) pages ->
  resp_IsTruncated last ≠ Some true ->
  length (pages ++ [last]) ≤ budget ->
  run.1 = Returned (concat (keysOf <$> pages ++ [last])) ∧
  commands (since w run.2) = pageRequests first (pages ++ [last]) ∧
  length (requests (since w run.2)) = length (pages ++ [last]).
Proof.
  intros first run Hclient Hreply Hpages Hlast Hbudget. subst run.
  unfold S3Wrapper.getListOfFileKeys. fold first.
  set (locals := {| listObjectsParams := first |}).
  rewrite bind_run.
  assert (∃ evs, S3Wrapper.getS3 p w = (Returned tt, (S3Wrapper.getS3 p w).2) ∧
                 events (S3Wrapper.getS3 p w).2 = events w ++ evs ∧
                 requests evs = [] ∧ commands evs = []) as (evs & Hrun & Hev & Hreq & Hcmd).
  { unfold S3Wrapper.getS3, S3Wrapper.initialise. rewrite bind_run. unfold get.
    cbv iota beta. destruct (s3Client w) eqn:Hs3.
    - exists []. by rewrite app_nil_r.
    - destruct Hclient as [| Hc]; [done |].
      rewrite bind_run. unfold newClient. rewrite Hc. by eexists. }
  rewrite Hrun. set (w1 := (S3Wrapper.getS3 p w).2) in *. cbv iota beta.
  assert (length (requests (events w1)) = length (requests (events w))) as Hn.
  { rewrite Hev, requests_app, Hreq. by rewrite app_nil_r. }
  destruct (whileTruncated_pages pages last budget locals p w1)
    as (Hout & new & Hev' & Hcmds & Hlen); try done.
  { intros i cmd page. rewrite Hn. apply Hreply. }
  rewrite Hout. split; [done |].
  assert (since w (S3Wrapper.whileTruncated budget locals p w1).2 = evs ++ new) as ->.
  { apply since_app. by rewrite Hev', Hev, app_assoc. }
  rewrite commands_app, Hcmd, requests_app, Hreq. simpl. split; [done |].
  rewrite (only_requests new); [done |].
  by rewrite Hcmds, pageRequests_length.
Qed.

Lemma getListOfFileKeys_pages_witness :
  let run := S3Wrapper.getListOfFileKeys 5 "bucket" None paging fresh in
  resp_IsTruncated secondPage ≠ Some true ∧
  run.1 = Returned ["a.csv"; "b.csv"; "c.csv"] ∧
  commands (since fresh run.2) =
    [ ListObjectsV2Command {| Bucket := "bucket"; MaxKeys := Some 100; Prefix := None;
                              ContinuationToken := None |};
      ListObjectsV2Command {| Bucket := "bucket"; MaxKeys := Some 100; Prefix := None;
                              ContinuationToken := Some "page-2" |} ] ∧
  length (requests (since fresh run.2)) = 2.
Proof.
  split; [discriminate |].
  apply (getListOfFileKeys_pages "bucket" None paging fresh [firstPage] secondPage 5).
  - right. reflexivity.
  - intros [| [| i]] cmd page; simpl; intros [= <-] [= <-]; reflexivity.
  - repeat constructor.
  - discriminate.
  - simpl. lia.
Defined.

(** On a service that always answers with a truncated page the loop uses up
    every budget it is given: the operation does not return. *)
Lemma getListOfFileKeys_endless (budget : nat) :
  (S3Wrapper.getListOfFileKeys budget "bucket" None endless fresh).1 = Pending.
Proof.
  unfold S3Wrapper.getListOfFileKeys. rewrite bind_run.
  change (S3Wrapper.getS3 endless fresh) with
    (Returned tt, with_s3Client true
                    (with_events (fun evs => evs ++ [Constructed S3Client None]) fresh)).
  cbv iota beta.
  generalize (with_s3Client true
                (with_events (fun evs => evs ++ [Constructed S3Client None]) fresh)).
  generalize (@nil string).
  generalize {| Bucket := "bucket"; MaxKeys := Some 100; Prefix := None;
                ContinuationToken := None |}.
  induction budget as [| budget IH]; intros params keys w; [done |].
  simpl. rewrite bind_run, send_run. simpl. apply IH.
Qed.

(** ** S3Wrapper.retrieveSortedFileList *)

Lemma append_cons (c : ascii) (s t : string) : String c s +:+ t = String c (s +:+ t).
Proof. reflexivity. Qed.

Lemma append_empty (t : string) : "" +:+ t = t.
Proof. reflexivity. Qed.

Lemma prefix_spec (searchString s : string) :
  String.prefix searchString s = true ↔ ∃ after, s = searchString +:+ after.
Proof.
  revert s. induction searchString as [| c rest IH]; intros s.
  - split; [by exists s | by destruct s].
  - destruct s as [| c' s]; simpl.
    + split; [done | intros [after Hafter]; by rewrite append_cons in Hafter].
    + destruct (Ascii.ascii_dec c c') as [-> | Hne].
      * rewrite IH. split; intros [after Hafter]; exists after;
          rewrite append_cons in *; congruence.
      * split; [done | intros [after Hafter]; rewrite append_cons in Hafter; congruence].
Qed.

Lemma includes_spec (s searchString : string) :
  includes s searchString = true ↔ ∃ before after, s = before +:+ searchString +:+ after.
Proof.
  induction s as [| c s IH]; cbn [includes].
  - destruct (String.prefix searchString "") eqn:Hp.
    + apply prefix_spec in Hp as [after Hafter]. split; [| done].
      intros _. exists "", after. exact Hafter.
    + split; [done |]. intros (before & after & Heq).
      destruct before; rewrite ?append_cons, ?append_empty in Heq; [| done].
      assert (String.prefix searchString "" = true) as Hp'; [| congruence].
      apply prefix_spec. by exists after.
  - destruct (String.prefix searchString (String c s)) eqn:Hp.
    + apply prefix_spec in Hp as [after Hafter]. split; [| done].
      intros _. exists "", after. exact Hafter.
    + rewrite IH. split.
      * intros (before & after & ->). exists (String c before), after. reflexivity.
      * intros (before & after & Heq).
        destruct before as [| c' before]; rewrite ?append_cons, ?append_empty in Heq.
        -- assert (String.prefix searchString (String c s) = true) as Hp'; [| congruence].
           apply prefix_spec. by exists after.
        -- injection Heq as -> ->. by exists before, after.
Qed.

Lemma filterFunction_spec (file : S3Object) :
  filterFunction file = true ↔ retained file.
Proof.
  unfold filterFunction, filterResultsFiles, retained.
  destruct (Key file) as [key |]; [| split; [done | by intros (? & [=] & _)]].
  destruct (String.eqb key "") eqn:Hempty.
  - apply String.eqb_eq in Hempty as ->. split; [done |]. by intros (? & [= <-] & ? & _).
  - apply String.eqb_neq in Hempty. rewrite negb_true_iff, <- not_true_iff_false, includes_spec.
    split.
    + intros Hnot. by exists key.
    + by intros (? & [= <-] & _ & Hnot).
Qed.

Section InsertionSort.
Context {A : Type} (comparefn : A -> A -> Z).

Lemma placeElement_perm (element : A) (placed : list A) :
  placeElement comparefn element placed ≡ₚ element :: placed.
Proof.
  induction placed as [| tmp before IH]; simpl; [done |].
  destruct (0 <? comparefn tmp element)%Z; [| done].
  rewrite IH. apply Permutation_swap.
Qed.

Lemma Array_sort_perm (array : list A) :
  Array_sort comparefn array ≡ₚ array.
Proof.
  unfold Array_sort. rewrite reverse_Permutation.
  assert (∀ placed,
            fold_left (fun placed element => placeElement comparefn element placed)
                      array placed ≡ₚ array ++ placed) as Hfold.
  { induction array as [| element array IH]; intros placed; simpl; [done |].
    rewrite IH, placeElement_perm. by rewrite Permutation_middle. }
  by rewrite Hfold, app_nil_r.
Qed.

(** On the elements that satisfy [ranked], let the comparison function
    behave as the code's does on dated objects: the sign it returns says
    whether the second argument ranks strictly lower than the first. *)
Context (ranked : A -> Prop) (rank : A -> Z).
Context (Hrank : ∀ tmp element, ranked tmp -> ranked element ->
            (0 <? comparefn tmp element)%Z = negb (rank element <? rank tmp)%Z).

Lemma placeElement_sorted (element : A) (placed : list A) :
  ranked element -> Forall ranked placed ->
  StronglySorted (fun a b => (rank a ≤ rank b)%Z) placed ->
  StronglySorted (fun a b => (rank a ≤ rank b)%Z) (placeElement comparefn element placed).
Proof.
  intros Helement.
  induction placed as [| tmp before IH]; simpl; intros Hranked Hsorted.
  - by repeat constructor.
  - apply StronglySorted_inv in Hsorted as [Hbefore Htmp].
    apply Forall_cons in Hranked as [Hr Hranked].
    rewrite Hrank by done. destruct (rank element <? rank tmp)%Z eqn:Hlt; simpl.
    + apply Z.ltb_lt in Hlt. constructor; [by constructor |].
      constructor; [lia |].
      eapply Forall_impl; [exact Htmp |]. simpl. intros b Hb. lia.
    + apply Z.ltb_ge in Hlt. constructor; [by apply IH |].
      rewrite placeElement_perm. by constructor.
Qed.

Lemma Array_sort_sorted (array : list A) :
  Forall ranked array ->
  StronglySorted (fun a b => (rank b ≤ rank a)%Z) (Array_sort comparefn array).
Proof.
  intros Harray. unfold Array_sort.
  assert (∀ placed,
            Forall ranked placed ->
            StronglySorted (fun a b => (rank a ≤ rank b)%Z) placed ->
            StronglySorted (fun a b => (rank a ≤ rank b)%Z)
              (fold_left (fun placed element => placeElement comparefn element placed)
                         array placed)) as Hfold.
  { induction Harray as [| element array Helement Harray IH]; intros placed Hranked Hplaced;
      simpl; [done |].
    apply IH; [| by apply placeElement_sorted].
    rewrite placeElement_perm. by constructor. }
  specialize (Hfold [] (Forall_nil_2 _) (SSorted_nil _)).
  induction Hfold as [| a l Hl IH Ha]; [constructor |].
  rewrite reverse_cons.
  apply StronglySorted_app_2; [| done | by repeat constructor].
  intros x1 x2 Hx1 Hx2. apply list_elem_of_singleton in Hx2 as ->.
  rewrite elem_of_reverse in Hx1. by eapply Forall_forall in Ha.
Qed.

End InsertionSort.

Lemma sortFilesByDate_sign (left right : S3Object) :
  is_Some (LastModified left) -> is_Some (LastModified right) ->
  (0 <? sortFilesByDate left right)%Z =
  negb (default 0%Z (LastModified right) <? default 0%Z (LastModified left))%Z.
Proof.
  intros [l Hl] [r Hr]. unfold sortFilesByDate. rewrite Hl, Hr. simpl.
  by destruct (r <? l)%Z.
Qed.

Lemma sorted_latestFirst (files : list S3Object) :
  StronglySorted (fun a b => (default 0 (LastModified b) ≤ default 0 (LastModified a))%Z) files ->
  latestFirst files.
Proof.
  intros Hsorted i j fi fj di dj Hij Hi Hj Hdi Hdj.
  apply (take_drop_middle files j fj) in Hj as Hsplit. rewrite <- Hsplit in Hsorted, Hi.
  rewrite lookup_app_l in Hi by (rewrite length_take; apply lookup_lt_Some in Hj; lia).
  apply StronglySorted_app in Hsorted as (Hcross & _ & _).
  specialize (Hcross fi fj). rewrite Hdi, Hdj in Hcross. simpl in Hcross.
  apply Hcross; [by eapply list_elem_of_lookup_2 | apply list_elem_of_here].
Qed.

(** The order by date is lost when an object without a date stands between
    two dated ones: the listing comes back as it was, the older object
    first. *)
Lemma undated_breaks_order :
  let run := S3Wrapper.retrieveSortedFileList "bucket" (answering (listed undatedBetween))
               fresh in
  run.1 = Returned (Some undatedBetween) ∧ ¬ latestFirst undatedBetween.
Proof.
  split; [by vm_compute |].
  intros Horder.
  specialize (Horder 0%nat 2%nat _ _ 1%Z 2%Z ltac:(lia) eq_refl eq_refl eq_refl eq_refl).
  lia.
Qed.

(** C10, amended. When the listing request is answered with a list of
    objects, [retrieveSortedFileList] returns a rearrangement of exactly
    those objects that have a non-empty key not containing [result_]; and
    when each of these carries a last-modified date, they are ordered by it,
    the most recently modified at index 0. *)
Theorem retrieveSortedFileList_sorted (bucket : string) (p : Platform) (w : World)
    (cmd : Command) (answer : Response) (listing : list S3Object) :
  let run := S3Wrapper.retrieveSortedFileList bucket p w in
  requests (since w run.2) = [Requested cmd (Fulfilled answer)] ->
  resp_Contents answer = Some listing ->
  ∃ files, run.1 = Returned (Some files) ∧
    files ≡ₚ List.filter filterFunction listing ∧
    (∀ file, file ∈ files ↔ file ∈ listing ∧ retained file) ∧
    (Forall (fun file => is_Some (LastModified file)) files -> latestFirst files).
Proof.
  cbv zeta. unfold S3Wrapper.retrieveSortedFileList.
  set (command := ListObjectsV2Command _).
  rewrite bind_run.
  destruct (getS3_trace p w) as (evs & Hev & Hreq & Hsettles).
  destruct (S3Wrapper.getS3 p w) as [[[] | e |] w1]; cbn [fst snd] in *; [| | done].
  2: { rewrite (since_app _ _ _ Hev), Hreq. done. }
  rewrite bind_run, send_run. cbv zeta.
  destruct (reply p _ command) as [r | e]; cbv iota beta; cbn [fst snd ret].
  all: erewrite since_app by (cbn [events with_events]; rewrite Hev, <- app_assoc; reflexivity).
  all: rewrite requests_app, Hreq; cbn.
  2: by intros [=].
  intros [= _ ->]. intros ->. cbn.
  eexists. split; [reflexivity |]. split_and!.
  - apply Array_sort_perm.
  - intros file. rewrite Array_sort_perm, <- filterFunction_spec.
    rewrite !list_elem_of_In. apply filter_In.
  - intros Hdated. apply sorted_latestFirst.
    apply (Array_sort_sorted _ (fun file => is_Some (LastModified file))).
    + intros tmp element. apply sortFilesByDate_sign.
    + by rewrite Array_sort_perm in Hdated.
Qed.

Lemma retrieveSortedFileList_sorted_witness :
  let run := S3Wrapper.retrieveSortedFileList "bucket" (answering (listed datedListing))
               fresh in
  resp_Contents (listed datedListing) = Some datedListing ∧
  ∃ files, run.1 = Returned (Some files) ∧
    files ≡ₚ List.filter filterFunction datedListing ∧
    (∀ file, file ∈ files ↔ file ∈ datedListing ∧ retained file) ∧
    (Forall (fun file => is_Some (LastModified file)) files -> latestFirst files).
Proof.
  split; [reflexivity |].
  exact (retrieveSortedFileList_sorted "bucket" (answering (listed datedListing)) fresh
           _ _ datedListing eq_refl eq_refl).
Defined.

(** * Further properties of the wrappers *)

(** ** SqsWrapper: how many batches *)

(** X1. A batch of [n] messages takes the ceiling of [n / 10] requests when
    it goes through (none for an empty batch), and between one and that
    many when a send is rejected. *)
Theorem writeMessageBatchToFifoQueue_requests (queueUrl : string)
    (messages : list MessageAndGroupId) (p : Platform) (w : World) :
  let run := SqsWrapper.writeMessageBatchToFifoQueue queueUrl messages p w in
  let sent := length (requests (since w run.2)) in
  match run.1 with
  | Returned _ => sent = (length messages + 9) / 10
  | Threw _ => 1 ≤ sent ≤ (length messages + 9) / 10
  | Pending => False
  end.
Proof.
  cbv zeta. unfold SqsWrapper.writeMessageBatchToFifoQueue.
  destruct (forEachChunk_trace queueUrl (chunk messages 10) p w) as (sent & Hev & Hout).
  rewrite (since_app _ _ _ Hev).
  pose proof (chunk_length messages 10 ltac:(lia)) as Hlen. change (10 - 1) with 9 in Hlen.
  destruct (SqsWrapper.forEachChunk queueUrl (chunk messages 10) p w).1 as [[] | e |].
  - destruct Hout as [Hcmds Hsent].
    rewrite only_requests by (by rewrite Hcmds, Hsent).
    by rewrite Hsent, length_fmap.
  - destruct Hout as (k & cmd & Hk & Hcmds & Hsent & _).
    rewrite length_fmap in Hk.
    rewrite only_requests; [lia |].
    rewrite Hcmds, length_take, length_fmap. lia.
  - done.
Qed.

(** ** SsmWrapper: what is cached, constructed and logged *)

(** A miss with the client in place: one request, whatever the cache holds
    of falsy values. *)
Lemma getParamValue_miss (paramName : string) (decrypt : option bool)
    (p : Platform) (w : World) :
  ssm w = true -> truthy (cache w !! paramName) = false ->
  ∃ answer,
    requests (since w (SsmWrapper.getParamValue paramName decrypt p w).2) =
      [Requested (GetParameterCommand paramName (default true decrypt)) answer].
Proof.
  intros Hssm Hmiss. run_ssm. rewrite Hssm. world.
  rewrite Hmiss. world.
  destruct (reply p _ _) as [result | e] eqn:Hreply;
    [exists (Fulfilled result) | exists (Rejected e)]; world.
  all: try (destruct (mjoin (resp_Parameter result)) as [fetched |]; world).
  all: since_new; reflexivity.
Qed.

(** X2. An empty value is stored but never served: after a call that
    returned the empty string the cache holds it under the name, and the
    next call for the name goes to the parameter store again, with exactly
    one request. *)
Theorem getParamValue_refetches_empty (paramName : string) (decrypt again : option bool)
    (p : Platform) (w : World) :
  let run := SsmWrapper.getParamValue paramName decrypt p w in
  let second := SsmWrapper.getParamValue paramName again p run.2 in
  run.1 = Returned (Some "") ->
  cache run.2 !! paramName = Some "" ∧
  ∃ answer,
    requests (since run.2 second.2) =
      [Requested (GetParameterCommand paramName (default true again)) answer].
Proof.
  cbv zeta. intros Hrun.
  destruct (getParamValue_leaves _ _ _ _ _ Hrun) as [Hssm Hcache].
  split; [done |].
  apply getParamValue_miss; [done |]. by rewrite Hcache.
Qed.

(** A parameter whose value is the empty string. *)
Lemma getParamValue_refetches_empty_witness :
  let run := SsmWrapper.getParamValue "someparam" None (answering (valued "")) fresh in
  let second := SsmWrapper.getParamValue "someparam" None (answering (valued "")) run.2 in
  run.1 = Returned (Some "") ∧
  cache run.2 !! "someparam" = Some "" ∧
  ∃ answer,
    requests (since run.2 second.2) =
      [Requested (GetParameterCommand "someparam" true) answer].
Proof.
  split; [reflexivity |].
  exact (getParamValue_refetches_empty "someparam" None None (answering (valued "")) fresh
           eq_refl).
Defined.

(** X3. The client of the parameter store is constructed when a call finds
    none and only then. A constructor that throws ends the call at once: the
    error goes to the caller, nothing is requested, stored or logged, and the
    client stays undefined. Otherwise the client is defined afterwards and the
    console receives one line exactly when the call throws. *)
Theorem getParamValue_client_and_console (paramName : string) (decrypt : option bool)
    (p : Platform) (w : World) :
  let run := SsmWrapper.getParamValue paramName decrypt p w in
  match ssm w, construct p SSMClient with
  | false, Some e =>
      run = (Threw e, with_events (fun evs => evs ++ [Constructed SSMClient (Some e)]) w)
  | known, _ =>
      ssm run.2 = true ∧
      List.filter (fun ev => negb (isRequest ev)) (since w run.2) =
        (if known then [] else [Constructed SSMClient None]) ++
        match run.1 with Threw e => [Caught e] | _ => [] end ∧
      console run.2 =
        console w ++
        match run.1 with
        | Threw e =>
            [ConsoleError
               ("Failed to get parameter '" +:+ paramName +:+ "' from parameter store: ") e]
        | _ => []
        end
  end.
Proof.
  cbv zeta. run_ssm.
  destruct (ssm w) eqn:Hssm; [| destruct (construct p SSMClient) eqn:Hc];
    cbn [fst snd ssm cache events console with_ssm with_events with_cache with_console];
    [| done |].
  all: destruct (truthy (cache w !! paramName)); cbn [negb].
  all: try destruct (reply p _ _) as [result | e];
    cbn [fst snd ssm cache events console with_ssm with_events with_cache with_console].
  all: try (destruct (mjoin (resp_Parameter result)) as [fetched |];
    cbn [fst snd ssm cache events console with_ssm with_events with_cache with_console]).
  all: split; [done |].
  all: split; [| by rewrite ?app_nil_r].
  all: first [rewrite since_refl | since_new]; reflexivity.
Qed.


(** ** DynDb: the client, the table and what comes back *)

(** X5. While the client is undefined no operation of [DynDb] reaches the
    table and the state is left exactly as it was. The queries return
    [undefined] or an empty list. [putItem], [getItem] and [deleteItem]
    marshall their record first: they throw what [marshall] throws at it,
    and otherwise return as if done. *)
Theorem DynDb_without_client (T : TableClass) (p : Platform) (w : World) :
  ddb w = false ->
  (∀ item, DynDb.putItem item p w =
             (match marshall p item with
              | Fulfilled _ => Returned tt
              | Rejected e => Threw e
              end, w)) ∧
  (∀ key, DynDb.deleteItem key p w =
            (match marshall p key with
             | Fulfilled _ => Returned tt
             | Rejected e => Threw e
             end, w)) ∧
  (∀ key, DynDb.getItem key p w =
            (match marshall p key with
             | Fulfilled _ => Returned None
             | Rejected e => Threw e
             end, w)) ∧
  (∀ pkVal, DynDb.getItemByPK pkVal p w = (Returned None, w)) ∧
  (∀ skVal, DynDb.getItemBySK skVal p w = (Returned None, w)) ∧
  (∀ pkVal, DynDb.getItemsByPK pkVal p w = (Returned [], w)) ∧
  (∀ pkVal skVal, DynDb.getItemsWithSKBeginning pkVal skVal p w = (Returned [], w)) ∧
  (∀ keyVals pkName skName pkType skType indexName,
     DynDb.getItemsWithSKBetween keyVals pkName skName pkType skType indexName p w =
       (Returned [], w)) ∧
  (∀ pkPrefix skVal, DynDb.getAllByPKPrefixAndSK pkPrefix skVal p w = (Returned [], w)).
Proof.
  intros Hddb. split_and!; intros.
  all: unfold DynDb.putItem, DynDb.getItem, DynDb.deleteItem,
         DynDb.getItemByPK, DynDb.getItemsByPK, DynDb.getItemsWithSKBeginning,
         DynDb.getItemsWithSKBetween, DynDb.getItemBySK, DynDb.getAllByPKPrefixAndSK.
  all: rewrite bind_run; unfold ask; cbv iota beta zeta.
  all: try (rewrite bind_run, settle_run;
            match goal with
            | |- context [marshall ?p0 ?record] => destruct (marshall p0 record)
            end; [| reflexivity]; cbv iota beta).
  all: by rewrite bind_run, ddb_send_run, Hddb.
Qed.

Lemma DynDb_without_client_witness :
  ddb fresh = false ∧
  @DynDb.putItem TestDynDb profileRecord obliging fresh = (Returned tt, fresh) ∧
  @DynDb.getItemsByPK TestDynDb "user#1" obliging fresh = (Returned [], fresh).
Proof.
  split; [reflexivity |].
  pose proof (DynDb_without_client TestDynDb obliging fresh eq_refl)
    as (Hput & _ & _ & _ & _ & Hget & _).
  split; [| apply Hget].
  rewrite Hput.
  replace (marshall obliging profileRecord) with (Fulfilled profile : Settled Item)
    by (vm_compute; reflexivity).
  reflexivity.
Defined.

Lemma perform_without_client (T : TableClass) (op : Operation) (p : Platform) (w : World) :
  ddb w = false -> tableOperation op = true ->
  perform op p w = (match refusal op p with Some e => Threw e | None => Returned tt end, w).
Proof.
  intros Hddb Hop.
  destruct op; try done; cbn [perform refusal]; unfold void; rewrite ?bind_run.
  all: unfold DynDb.putItem, DynDb.getItem, DynDb.deleteItem,
         DynDb.getItemByPK, DynDb.getItemsByPK, DynDb.getItemsWithSKBeginning,
         DynDb.getItemsWithSKBetween, DynDb.getItemBySK, DynDb.getAllByPKPrefixAndSK.
  all: rewrite bind_run; unfold ask; cbv iota beta zeta.
  all: try (rewrite bind_run, settle_run;
            match goal with
            | |- context [marshall ?p0 ?record] => destruct (marshall p0 record)
            end; [| reflexivity]; cbv iota beta).
  all: by rewrite bind_run, ddb_send_run, Hddb.
Qed.

(** X6. When the constructor of the client throws, [init] returns all the
    same, and no read or write that follows issues a single request: it
    returns normally, unless it is handed a record that [marshall] refuses,
    whose error it throws. The failure of the constructor shows on the
    console only. *)
Theorem failed_init_silences_table (T : TableClass) (op : Operation) (e : Exception)
    (p : Platform) (w : World) :
  ddb w = false -> construct p DynamoDBClient = Some e -> tableOperation op = true ->
  let run := (DynDb.init;; perform op) p w in
  run.1 = match refusal op p with Some refused => Threw refused | None => Returned tt end ∧
  requests (since w run.2) = [] ∧
  console run.2 =
    console w ++ [ConsoleWarn "DynamoDB config"; ConsoleError "Failed to initialise dynamodb" e].
Proof.
  intros Hddb Hc Hop. cbv zeta. rewrite bind_run.
  assert (DynDb.init p w =
          (Returned tt,
           with_console (fun c => c ++ [ConsoleError "Failed to initialise dynamodb" e])
             (with_events (fun evs => evs ++ [Caught e])
                (with_events (fun evs => evs ++ [Constructed DynamoDBClient (Some e)])
                   (with_console (fun c => c ++ [ConsoleWarn "DynamoDB config"]) w))))) as ->.
  { unfold DynDb.init.
    unfold try_catch, mbind, Async_bind, bind, newClient, get, log, modify, ret.
    cbn [fst snd ddb with_console]. rewrite Hddb. cbn [negb]. by rewrite Hc. }
  cbv iota beta. rewrite perform_without_client by done. cbn [fst snd].
  split_and!; [done | by since_new | cbn; by rewrite <- app_assoc].
Qed.

Lemma failed_init_silences_table_witness :
  let run := (DynDb.init;; @perform TestDynDb (DynDb_putItem profileRecord))
               noDynamo fresh in
  construct noDynamo DynamoDBClient = Some outOfMemory ∧
  run.1 = Returned tt ∧
  requests (since fresh run.2) = [] ∧
  console run.2 =
    [ConsoleWarn "DynamoDB config";
     ConsoleError "Failed to initialise dynamodb" outOfMemory].
Proof.
  split; [reflexivity |].
  pose proof (failed_init_silences_table TestDynDb (DynDb_putItem profileRecord)
                outOfMemory noDynamo fresh eq_refl eq_refl eq_refl) as Hrun.
  replace (refusal (DynDb_putItem profileRecord) noDynamo) with (@None Exception) in Hrun
    by (vm_compute; reflexivity).
  exact Hrun.
Defined.

(** X7. [init] constructs a client only when none is defined: with a client
    in place it leaves the trace alone, so once an [init] has succeeded every
    further [init] constructs nothing; a failed construction is caught, and
    is attempted again by the next [init]. *)
Theorem DynDb_init_constructs_once (p : Platform) (w : World) :
  let first := DynDb.init p w in
  let second := DynDb.init p first.2 in
  since w first.2 =
    (if ddb w then []
     else Constructed DynamoDBClient (construct p DynamoDBClient) ::
          match construct p DynamoDBClient with Some e => [Caught e] | None => [] end) ∧
  (if ddb first.2 then since first.2 second.2 = []
   else List.filter isConstruction (since first.2 second.2) =
          [Constructed DynamoDBClient (construct p DynamoDBClient)]).
Proof.
  cbv zeta.
  assert (∀ w, since w (DynDb.init p w).2 =
            (if ddb w then []
             else Constructed DynamoDBClient (construct p DynamoDBClient) ::
                  match construct p DynamoDBClient with
                  | Some e => [Caught e] | None => [] end)) as Htrace.
  { intros w0. unfold DynDb.init.
    unfold try_catch, mbind, Async_bind, bind, newClient, get, log, modify, ret.
    cbn [fst snd ddb with_console].
    destruct (ddb w0); cbn [negb fst snd]; [apply since_app; cbn; by rewrite app_nil_r |].
    destruct (construct p DynamoDBClient); cbn [fst snd]; by since_new. }
  split; [apply Htrace |].
  rewrite Htrace. destruct (ddb (DynDb.init p w).2); [done |].
  by destruct (construct p DynamoDBClient).
Qed.

(** A request through [this.ddb?.send] that was answered, followed by code
    that issues none: the continuation ran on that answer. *)
Lemma ddb_send_answered {A} (cmd : Command) (k : option Response -> Async A)
    (p : Platform) (w : World) (cmd' : Command) (result : Response) :
  (∀ r, Silent (k r)) ->
  since w ((DynDb.ddb_send cmd ≫= k) p w).2 = [Requested cmd' (Fulfilled result)] ->
  cmd' = cmd ∧
  (DynDb.ddb_send cmd ≫= k) p w =
    k (Some result) p (with_events (fun evs => evs ++ [Requested cmd (Fulfilled result)]) w).
Proof.
  intros Hk. rewrite ddb_send_then by done.
  rewrite bind_run, ddb_send_run.
  destruct (ddb w); [| done]. intros [= <- Hreply]. cbv zeta. by rewrite Hreply.
Qed.

Ltac run_ddb :=
  unfold DynDb.putItem, DynDb.getItem, DynDb.getItemByPK, DynDb.getItemsByPK,
    DynDb.getItemsWithSKBeginning, DynDb.getItemsWithSKBetween, DynDb.getItemBySK,
    DynDb.getAllByPKPrefixAndSK, DynDb.deleteItem, DynDb.unmarshallAll;
  rewrite bind_run; unfold ask; cbv iota beta zeta.

Ltac answered H :=
  run_ddb; intros H;
  apply ddb_send_answered in H as [-> ->]; [| intros ?; silent].

(** Running [unmarshall] on an item and stripping the keys off the result. *)
Lemma unmarshalled_stripped (first : Item) (p : Platform) (w : World) :
  match unmarshall p first with
  | Fulfilled native =>
      ∃ record,
        ((item ← settle (unmarshall p first);
          ret (Some (DynDb.deleteKeyFromItem item))) p w).1 = Returned (Some record) ∧
        record !! "PK" = None ∧ record !! "SK" = None ∧
        ∀ k, k ≠ "PK" -> k ≠ "SK" -> record !! k = native !! k
  | Rejected e =>
      ((item ← settle (unmarshall p first);
        ret (Some (DynDb.deleteKeyFromItem item))) p w).1 = Threw e
  end.
Proof.
  rewrite bind_run, settle_run.
  destruct (unmarshall p first) as [native | e]; [| done].
  eexists. split; [reflexivity |]. apply deleteKeyFromItem_lookup.
Qed.

(** X8. [getItem] sends the key as [marshall] renders it. When the request
    is answered, the operation returns [undefined] if the answer carries no
    item; otherwise the item is unmarshalled: what the library throws at it
    the operation throws, and else it returns the record without [PK] and
    [SK] and with every other property. *)
Theorem getItem_cases (T : TableClass) (key : JsRecord) (p : Platform) (w : World)
    (cmd : Command) (result : Response) :
  let run := DynDb.getItem key p w in
  since w run.2 = [Requested cmd (Fulfilled result)] ->
  ∃ marshalled, marshall p key = Fulfilled marshalled ∧
    cmd = GetItemCommand (getTableName (env p)) marshalled ∧
    match resp_Item result with
    | None => run.1 = Returned None
    | Some item =>
        match unmarshall p item with
        | Fulfilled native =>
            ∃ record, run.1 = Returned (Some record) ∧
              record !! "PK" = None ∧ record !! "SK" = None ∧
              ∀ k, k ≠ "PK" -> k ≠ "SK" -> record !! k = native !! k
        | Rejected e => run.1 = Threw e
        end
    end.
Proof.
  cbv zeta. unfold DynDb.getItem.
  rewrite bind_run. unfold ask. cbv iota beta zeta.
  rewrite bind_run, settle_run.
  destruct (marshall p key) as [marshalled | refused]; cbv iota beta.
  2: { cbn [snd]. by rewrite since_refl. }
  intros Hsince. exists marshalled. split; [done |].
  apply ddb_send_answered in Hsince as [-> ->]; [| intros ?; silent].
  split; [done |]. cbn [mbind option_bind].
  destruct (resp_Item result) as [item |]; [| done].
  apply unmarshalled_stripped.
Qed.

Lemma getItem_cases_witness :
  let key : JsRecord := {[ "PK" := JsString "user#1"; "SK" := JsString "profile" ]} in
  let run := @DynDb.getItem TestDynDb key (answering (holding profile)) initialised in
  since initialised run.2 =
    [Requested (GetItemCommand "table" {[ "PK" := AttrS "user#1"; "SK" := AttrS "profile" ]})
               (Fulfilled (holding profile))] ∧
  ∃ record, run.1 = Returned (Some record) ∧
    record !! "PK" = None ∧ record !! "SK" = None ∧
    ∀ k, k ≠ "PK" -> k ≠ "SK" -> record !! k = profileRecord !! k.
Proof.
  cbv zeta.
  assert (since initialised
            (@DynDb.getItem TestDynDb {[ "PK" := JsString "user#1"; "SK" := JsString "profile" ]}
               (answering (holding profile)) initialised).2 =
          [Requested (GetItemCommand "table"
                        {[ "PK" := AttrS "user#1"; "SK" := AttrS "profile" ]})
                     (Fulfilled (holding profile))]) as Hsince
    by (vm_compute; reflexivity).
  split; [exact Hsince |].
  destruct (getItem_cases TestDynDb _ (answering (holding profile)) initialised _ _ Hsince)
    as (marshalled & _ & _ & Hcases).
  cbn [resp_Item holding] in Hcases.
  replace (unmarshall (answering (holding profile)) profile)
    with (Fulfilled profileRecord : Settled JsRecord) in Hcases
    by (vm_compute; reflexivity).
  exact Hcases.
Defined.

(** X9. [getItemBySK] looks at the first item of the answer only, however
    many items the answer holds: it does not throw when there are several.
    What the library throws at that item the operation throws, and else it
    returns the record without [PK] and [SK]. Without items it returns
    [undefined]. *)
Theorem getItemBySK_first (T : TableClass) (skVal : string) (p : Platform) (w : World)
    (cmd : Command) (result : Response) :
  let run := DynDb.getItemBySK skVal p w in
  since w run.2 = [Requested cmd (Fulfilled result)] ->
  match resp_Items result with
  | None | Some [] => run.1 = Returned None
  | Some (first :: others) =>
      match unmarshall p first with
      | Fulfilled native =>
          ∃ record, run.1 = Returned (Some record) ∧
            record !! "PK" = None ∧ record !! "SK" = None ∧
            ∀ k, k ≠ "PK" -> k ≠ "SK" -> record !! k = native !! k
      | Rejected e => run.1 = Threw e
      end
  end.
Proof.
  cbv zeta. answered Hsince. cbn [mbind option_bind].
  destruct (resp_Items result) as [[| first others] |]; [done | | done].
  apply unmarshalled_stripped.
Qed.

Lemma getItemBySK_first_witness :
  let run := @DynDb.getItemBySK TestDynDb "profile" (answering (found [profile; profile]))
               initialised in
  since initialised run.2 =
    [Requested (QueryCommand (@DynDb.bySKQuery "table" "profile"))
               (Fulfilled (found [profile; profile]))] ∧
  ∃ record, run.1 = Returned (Some record) ∧
    record !! "PK" = None ∧ record !! "SK" = None ∧
    ∀ k, k ≠ "PK" -> k ≠ "SK" -> record !! k = profileRecord !! k.
Proof.
  cbv zeta.
  assert (since initialised
            (@DynDb.getItemBySK TestDynDb "profile" (answering (found [profile; profile]))
               initialised).2 =
          [Requested (QueryCommand (@DynDb.bySKQuery "table" "profile"))
                     (Fulfilled (found [profile; profile]))]) as Hsince
    by (vm_compute; reflexivity).
  split; [exact Hsince |].
  pose proof (getItemBySK_first TestDynDb "profile" (answering (found [profile; profile]))
                initialised _ _ Hsince) as Hcases.
  cbn [resp_Items found] in Hcases.
  replace (unmarshall (answering (found [profile; profile])) profile)
    with (Fulfilled profileRecord : Settled JsRecord) in Hcases
    by (vm_compute; reflexivity).
  exact Hcases.
Defined.

(** What [array.map(callbackfn)] gives: one result per element, in order,
    or what the callback threw at the first element it refused. *)
Lemma Array_map_spec {A B} (callbackfn : A -> Settled B) (array : list A) :
  match Array_map callbackfn array with
  | Fulfilled mapped =>
      length mapped = length array ∧
      ∀ i element, array !! i = Some element ->
        ∃ result, callbackfn element = Fulfilled result ∧ mapped !! i = Some result
  | Rejected e =>
      ∃ i element, array !! i = Some element ∧ callbackfn element = Rejected e ∧
        ∀ j earlier, j < i -> array !! j = Some earlier ->
          ∃ result, callbackfn earlier = Fulfilled result
  end.
Proof.
  induction array as [| element rest IH]; cbn [Array_map].
  - split; [done |]. intros i element Hi. by rewrite lookup_nil in Hi.
  - destruct (callbackfn element) as [result | e] eqn:Hfirst.
    + destruct (Array_map callbackfn rest) as [others | e].
      * destruct IH as [Hlen Hall]. split; [simpl; by rewrite Hlen |].
        intros [| i] element' Hi; simpl in Hi.
        -- injection Hi as <-. by exists result.
        -- by apply Hall.
      * destruct IH as (i & element' & Hi & He & Hbefore).
        exists (S i), element'. split_and!; [done | done |].
        intros [| j] earlier Hj Hearlier; simpl in Hearlier.
        -- injection Hearlier as <-. by exists result.
        -- apply (Hbefore j); [lia | done].
    + exists 0, element. split_and!; [done | done |]. intros j earlier Hj. lia.
Qed.

(** X10. [getAllByPKPrefixAndSK] unmarshalls the items of the answer in
    order. When it returns, it returns one record per item, each the record
    of its item without [PK] and [SK] and with every other property (an
    answer without a list of items gives the empty list). When it throws, it
    throws what the library threw at the first item it refused. *)
Theorem getAllByPKPrefixAndSK_strips (T : TableClass) (pkPrefix skVal : string)
    (p : Platform) (w : World) (cmd : Command) (result : Response) :
  let run := DynDb.getAllByPKPrefixAndSK pkPrefix skVal p w in
  let items := default [] (resp_Items result) in
  since w run.2 = [Requested cmd (Fulfilled result)] ->
  match run.1 with
  | Returned records =>
      length records = length items ∧
      ∀ i item, items !! i = Some item ->
        ∃ native record, unmarshall p item = Fulfilled native ∧ records !! i = Some record ∧
          record !! "PK" = None ∧ record !! "SK" = None ∧
          ∀ k, k ≠ "PK" -> k ≠ "SK" -> record !! k = native !! k
  | Threw e =>
      ∃ i item, items !! i = Some item ∧ unmarshall p item = Rejected e ∧
        ∀ j earlier, j < i -> items !! j = Some earlier ->
          ∃ native, unmarshall p earlier = Fulfilled native
  | Pending => False
  end.
Proof.
  cbv zeta. answered Hsince. cbn [mbind option_bind].
  destruct (resp_Items result) as [items |]; cbn [default].
  2: { rewrite bind_run. unfold ret. cbn [fst]. split; [done |].
       intros i item Hi. destruct i; discriminate Hi. }
  rewrite !bind_run, settle_run.
  pose proof (Array_map_spec
                (fun rawItem =>
                   match unmarshall p rawItem with
                   | Fulfilled item => Fulfilled (DynDb.deleteKeyFromItem item)
                   | Rejected e => Rejected e
                   end) items) as Hmap.
  destruct (Array_map _ items) as [records | e]; cbv iota beta; unfold ret; cbn [fst default].
  - destruct Hmap as [Hlen Hall]. split; [done |].
    intros i item Hi. destruct (Hall i item Hi) as (record & Hrecord & Hi').
    destruct (unmarshall p item) as [native |]; [| done].
    injection Hrecord as <-. exists native. eexists. split_and!; [done | done | ..].
    all: apply deleteKeyFromItem_lookup.
  - destruct Hmap as (i & item & Hi & He & Hbefore).
    exists i, item. split_and!; [done | | ].
    { by destruct (unmarshall p item) as [? |]; [| injection He as ->]. }
    intros j earlier Hj Hearlier. destruct (Hbefore j earlier Hj Hearlier) as [record Hrecord].
    destruct (unmarshall p earlier) as [native |]; [by exists native | done].
Qed.

Lemma getAllByPKPrefixAndSK_strips_witness :
  let run := @DynDb.getAllByPKPrefixAndSK TestDynDb "user#" "profile"
               (answering (found [profile; profile])) initialised in
  since initialised run.2 =
    [Requested (QueryCommand (@DynDb.pkPrefixAndSKQuery "table" "user#" "profile"))
               (Fulfilled (found [profile; profile]))] ∧
  ∃ records, run.1 = Returned records ∧ length records = 2.
Proof.
  cbv zeta.
  assert (since initialised
            (@DynDb.getAllByPKPrefixAndSK TestDynDb "user#" "profile"
               (answering (found [profile; profile])) initialised).2 =
          [Requested (QueryCommand (@DynDb.pkPrefixAndSKQuery "table" "user#" "profile"))
                     (Fulfilled (found [profile; profile]))]) as Hsince
    by (vm_compute; reflexivity).
  split; [exact Hsince |].
  pose proof (getAllByPKPrefixAndSK_strips TestDynDb "user#" "profile"
                (answering (found [profile; profile])) initialised _ _ Hsince) as Hcases.
  destruct (@DynDb.getAllByPKPrefixAndSK TestDynDb "user#" "profile"
              (answering (found [profile; profile])) initialised).1
    as [records | e |] eqn:Hrun.
  - exists records. split; [reflexivity | exact (proj1 Hcases)].
  - exfalso. destruct Hcases as (i & item & Hi & He & _).
    destruct i as [| [| i]]; simpl in Hi; [| | discriminate];
      injection Hi as <-; vm_compute in He; discriminate.
  - destruct Hcases.
Defined.

(** X11. [getItemsByPK], [getItemsWithSKBeginning] and
    [getItemsWithSKBetween] unmarshall the items of the answer in order.
    When they return, they return one record per item, each as [unmarshall]
    gave it, the key properties included (an answer without items gives the
    empty list). When they throw, they throw what the library threw at the
    first item it refused. *)
Theorem getItems_unmarshalled (T : TableClass) (op : Operation) (p : Platform) (w : World)
    (cmd : Command) (result : Response) :
  let items := default [] (resp_Items result) in
  let returns (run : Completion (list JsRecord) * World) :=
    since w run.2 = [Requested cmd (Fulfilled result)] ->
    match run.1 with
    | Returned records =>
        length records = length items ∧
        ∀ i item, items !! i = Some item ->
          ∃ native, unmarshall p item = Fulfilled native ∧ records !! i = Some native
    | Threw e =>
        ∃ i item, items !! i = Some item ∧ unmarshall p item = Rejected e ∧
          ∀ j earlier, j < i -> items !! j = Some earlier ->
            ∃ native, unmarshall p earlier = Fulfilled native
    | Pending => False
    end in
  match op with
  | DynDb_getItemsByPK pkVal => returns (DynDb.getItemsByPK pkVal p w)
  | DynDb_getItemsWithSKBeginning pkVal skVal =>
      returns (DynDb.getItemsWithSKBeginning pkVal skVal p w)
  | DynDb_getItemsWithSKBetween keyVals pkName skName pkType skType indexName =>
      returns (DynDb.getItemsWithSKBetween keyVals pkName skName pkType skType indexName p w)
  | _ => True
  end.
Proof.
  assert (∀ w' : World,
            match (DynDb.unmarshallAll (Some result) p w').1 with
            | Returned records =>
                length records = length (default [] (resp_Items result)) ∧
                ∀ i item, default [] (resp_Items result) !! i = Some item ->
                  ∃ native, unmarshall p item = Fulfilled native ∧ records !! i = Some native
            | Threw e =>
                ∃ i item, default [] (resp_Items result) !! i = Some item ∧
                  unmarshall p item = Rejected e ∧
                  ∀ j earlier, j < i -> default [] (resp_Items result) !! j = Some earlier ->
                    ∃ native, unmarshall p earlier = Fulfilled native
            | Pending => False
            end) as Hall.
  { intros w'. unfold DynDb.unmarshallAll. cbn [mbind option_bind].
    destruct (resp_Items result) as [[| first others] |]; cbn [default lookup list_lookup].
    1, 3: (split; [done |]; intros i item Hi; destruct i; discriminate Hi).
    rewrite bind_run. unfold ask. cbv iota beta. rewrite settle_run.
    pose proof (Array_map_spec (fun item => unmarshall p item) (first :: others)) as Hmap.
    destruct (Array_map _ (first :: others)) as [records | e]; cbn [fst]; exact Hmap. }
  cbv zeta. destruct op; try exact I.
  all: unfold DynDb.getItemsByPK, DynDb.getItemsWithSKBeginning, DynDb.getItemsWithSKBetween.
  all: rewrite bind_run; unfold ask; cbv iota beta zeta.
  all: intros Hsince;
    apply ddb_send_answered in Hsince as [-> ->];
    [| intros ?; unfold DynDb.unmarshallAll; silent].
  all: apply Hall.
Qed.

(** X12. Whatever an operation of [DynDb] requests, it requests of the table
    its class names: no command goes to another table. *)
Theorem DynDb_addresses_its_table (T : TableClass) (op : Operation)
    (p : Platform) (w : World) (cmd : Command) (answer : Settled Response) :
  tableOperation op = true ->
  Requested cmd answer ∈ since w (perform op p w).2 ->
  tableOf cmd = Some (getTableName (env p)).
Proof.
  intros Hop. destruct op; try done.
  all: table_trace.
  all: rewrite ?since_refl.
  all: destruct (ddb w); intros Hin; try by apply elem_of_nil in Hin.
  all: apply list_elem_of_singleton in Hin; by injection Hin as -> _.
Qed.

Lemma DynDb_addresses_its_table_witness :
  let run := @perform TestDynDb (DynDb_putItem profileRecord) obliging initialised in
  Requested (PutItemCommand "table" profile) (Fulfilled emptyResponse)
    ∈ since initialised run.2 ∧
  tableOf (PutItemCommand "table" profile) = Some "table".
Proof.
  assert (Requested (PutItemCommand "table" profile) (Fulfilled emptyResponse)
          ∈ since initialised
              (@perform TestDynDb (DynDb_putItem profileRecord) obliging initialised).2)
    as Hin.
  { replace (since initialised
               (@perform TestDynDb (DynDb_putItem profileRecord) obliging initialised).2)
      with [Requested (PutItemCommand "table" profile) (Fulfilled emptyResponse)]
      by (vm_compute; reflexivity).
    apply list_elem_of_here. }
  split; [exact Hin |].
  exact (DynDb_addresses_its_table TestDynDb (DynDb_putItem profileRecord)
           obliging initialised _ _ eq_refl Hin).
Defined.

(** X13. The query of [getItemsWithSKBetween] carries exactly three values:
    the partition key value and the two bounds of the sort key, each as a
    number when its key type is ['N'] and as a string otherwise (also when
    the type is left out). An index name that is the empty string is
    ignored: the query goes to the table. *)
Theorem getItemsWithSKBetween_values (T : TableClass) (keyVals : PkSkRange)
    (partitionKeyName sortKeyName : option string)
    (partitionKeyType sortKeyType : option KeyType) (indexName : option string)
    (p : Platform) (w : World) (cmd : Command) (answer : Settled Response) :
  let run := DynDb.getItemsWithSKBetween keyVals partitionKeyName sortKeyName
               partitionKeyType sortKeyType indexName p w in
  let as_ (type : option KeyType) (val : string) :=
    match type with Some TypeN => AttrN val | _ => AttrS val end in
  Requested cmd answer ∈ since w run.2 ->
  ∃ q, cmd = QueryCommand q ∧
    KeyConditionExpression q = "#PK = :pkVal AND #SK BETWEEN :skValFrom AND :skValTo" ∧
    ExpressionAttributeValues q !! ":pkVal" = Some (as_ partitionKeyType (pkVal keyVals)) ∧
    ExpressionAttributeValues q !! ":skValFrom" = Some (as_ sortKeyType (skValFrom keyVals)) ∧
    ExpressionAttributeValues q !! ":skValTo" = Some (as_ sortKeyType (skValTo keyVals)) ∧
    dom (ExpressionAttributeValues q) = {[ ":pkVal"; ":skValFrom"; ":skValTo" ]} ∧
    (indexName = Some "" -> IndexName q = None).
Proof.
  cbv zeta. run_ddb.
  rewrite ddb_send_then by (intros ?; silent).
  destruct (ddb w); intros Hin; [| by apply elem_of_nil in Hin].
  apply list_elem_of_singleton in Hin. injection Hin as -> _.
  eexists. split; [reflexivity |]. cbn [KeyConditionExpression ExpressionAttributeValues
    IndexName DynDb.skBetweenQuery].
  split_and!.
  - done.
  - rewrite !lookup_insert_ne by done. rewrite lookup_singleton_eq.
    by destruct partitionKeyType as [[] |].
  - rewrite lookup_insert_ne by done. rewrite lookup_insert_eq.
    by destruct sortKeyType as [[] |].
  - rewrite lookup_insert_eq. by destruct sortKeyType as [[] |].
  - rewrite !dom_insert_L, dom_singleton_L. set_solver.
  - by intros ->.
Qed.

Lemma getItemsWithSKBetween_values_witness :
  let keyVals := {| pkVal := "7"; skValFrom := "2024-01"; skValTo := "2024-12" |} in
  let run := @DynDb.getItemsWithSKBetween TestDynDb keyVals (Some "account") None
               (Some TypeN) None (Some "") obliging initialised in
  ∃ q, since initialised run.2 = [Requested (QueryCommand q) (Fulfilled emptyResponse)] ∧
    ExpressionAttributeValues q !! ":pkVal" = Some (AttrN "7") ∧
    ExpressionAttributeValues q !! ":skValFrom" = Some (AttrS "2024-01") ∧
    IndexName q = None.
Proof.
  destruct (getItemsWithSKBetween_values TestDynDb
              {| pkVal := "7"; skValFrom := "2024-01"; skValTo := "2024-12" |}
              (Some "account") None (Some TypeN) None (Some "") obliging initialised
              _ _ (list_elem_of_here _ _))
    as (q & Hq & _ & Hpk & Hfrom & _ & _ & Hindex).
  exists q. injection Hq as <-. split; [reflexivity |].
  split; [exact Hpk |]. split; [exact Hfrom | exact (Hindex eq_refl)].
Defined.

(** X14. [deleteKeyFromItem] removes the properties [PK] and [SK] and nothing
    else; applied to a record that has neither it changes nothing, so
    applying it twice is the same as applying it once. *)
Theorem deleteKeyFromItem_exact (record : JsRecord) :
  dom (DynDb.deleteKeyFromItem record) = dom record ∖ {[ "PK"; "SK" ]} ∧
  (∀ k, k ≠ "PK" -> k ≠ "SK" -> DynDb.deleteKeyFromItem record !! k = record !! k) ∧
  (record !! "PK" = None -> record !! "SK" = None ->
   DynDb.deleteKeyFromItem record = record) ∧
  DynDb.deleteKeyFromItem (DynDb.deleteKeyFromItem record) = DynDb.deleteKeyFromItem record.
Proof.
  destruct (deleteKeyFromItem_lookup record) as (Hpk & Hsk & Hother).
  assert (∀ r : JsRecord, r !! "PK" = None -> r !! "SK" = None ->
            DynDb.deleteKeyFromItem r = r) as Hid.
  { intros r Hr1 Hr2. unfold DynDb.deleteKeyFromItem.
    rewrite (delete_id r "PK") by done. by rewrite delete_id. }
  split_and!.
  - unfold DynDb.deleteKeyFromItem. rewrite !dom_delete_L. set_solver.
  - done.
  - apply Hid.
  - by apply Hid.
Qed.

(** ** S3Wrapper: the client *)

Ltac run_s3 :=
  unfold S3Wrapper.getS3, S3Wrapper.initialise,
    try_catch, mbind, Async_bind, bind, send, settle, newClient, ask, get, log, modify,
    ret, throw;
  cbn [fst snd events console cache ssm ddb s3Client
       with_events with_console with_cache with_ssm with_ddb with_s3Client].

(** X15. [getS3] constructs the client once: after a call that returned the
    client is defined and a further call changes nothing. A constructor that
    throws leaves the client undefined, to be constructed by the next call. *)
Theorem getS3_constructs_once (p : Platform) (w : World) :
  let run := S3Wrapper.getS3 p w in
  match run.1 with
  | Returned _ =>
      s3Client run.2 = true ∧ S3Wrapper.getS3 p run.2 = (Returned tt, run.2) ∧
      since w run.2 = (if s3Client w then [] else [Constructed S3Client None])
  | Threw e =>
      s3Client w = false ∧ construct p S3Client = Some e ∧ s3Client run.2 = false ∧
      since w run.2 = [Constructed S3Client (Some e)]
  | Pending => False
  end.
Proof.
  cbv zeta. run_s3.
  destruct (s3Client w) eqn:Hs3; cbn [fst snd].
  - rewrite Hs3. by rewrite since_refl.
  - destruct (construct p S3Client) as [e |] eqn:Hc; cbn [fst snd s3Client with_s3Client].
    + split_and!; [done | done | done | by since_new].
    + split_and!; [done | done | by since_new].
Qed.

(** ** S3Wrapper.retrieveFileData *)

(** X16. [retrieveFileData] looks at the first file only. When the list is
    empty or its first file has no key (or an empty one) it throws
    [Error('No file found')] before anything else happens: no client is
    constructed and nothing is requested. Otherwise, with a client, it issues
    exactly one request, for the object under that key in the given bucket:
    a rejection is thrown as it is, and an answer gives the body as a
    string, or an [Error] naming the key when it has no body. Without a
    client nothing is requested and what the constructor threw is thrown. *)
Theorem retrieveFileData_cases (files : list S3Object) (bucket : string)
    (p : Platform) (w : World) :
  let run := S3Wrapper.retrieveFileData files bucket p w in
  match files !! 0%nat ≫= Key with
  | None | Some "" => run = (Threw (Error "No file found"), w)
  | Some fileKey =>
      if available S3Client (s3Client w) p then
        ∃ answer,
          requests (since w run.2) = [Requested (GetObjectCommand bucket fileKey) answer] ∧
          run.1 = match answer with
                  | Rejected e => Threw e
                  | Fulfilled data =>
                      match resp_Body data with
                      | Some Body => Returned (toString Body)
                      | None => Threw (Error ("No data found in file " +:+ fileKey))
                      end
                  end
      else
        requests (since w run.2) = [] ∧
        ∃ e, construct p S3Client = Some e ∧ run.1 = Threw e
  end.
Proof.
  cbv zeta. unfold S3Wrapper.retrieveFileData, available.
  destruct (files !! 0%nat ≫= Key) as [fileKey |]; cbn [truthy negb]; [| done].
  destruct (String.eqb fileKey "") eqn:Hempty; cbn [negb].
  { apply String.eqb_eq in Hempty as ->. done. }
  destruct fileKey as [| c rest]; [done |]. clear Hempty.
  change (default "" (Some (String c rest))) with (String c rest).
  run_s3.
  destruct (s3Client w); [| destruct (construct p S3Client) as [e |] eqn:Hc];
    cbn [fst snd orb];
    rewrite ?bool_decide_eq_true_2, ?bool_decide_eq_false_2 by done.
  2: { since_new. split; [done | by exists e]. }
  all: destruct (reply p _ _) as [data | e'] eqn:Hreply;
    [exists (Fulfilled data) | exists (Rejected e')]; cbn [fst snd].
  all: try (destruct (resp_Body data) as [Body |] eqn:HBody; cbn [fst snd]).
  all: since_new; by split.
Qed.

(** ** S3Wrapper.createFileInBucket *)

(** X17. [createFileInBucket] puts the contents under the file name with the
    content type given, [application/json] when it is left out. A request
    that is rejected goes to the caller without a line on the console, since
    the promise leaves the [try] block unsettled; only a constructor that
    throws is logged as [PutObject failed], and then nothing is requested. *)
Theorem createFileInBucket_cases (bucket : string) (contents : option string)
    (filename : string) (contentType encoding : option string)
    (p : Platform) (w : World) :
  let run := S3Wrapper.createFileInBucket bucket contents filename contentType encoding p w in
  let command :=
    PutObjectCommand
      {| put_Bucket := bucket; put_Key := filename; put_Body := contents;
         ContentType := Some (match contentType with
                              | Some type => type
                              | None => "application/json"
                              end);
         ContentEncoding := encoding |} in
  if s3Client w || bool_decide (construct p S3Client = None) then
    ∃ answer,
      requests (since w run.2) = [Requested command answer] ∧
      run.1 = match answer with Fulfilled r => Returned r | Rejected e => Threw e end ∧
      console run.2 = console w
  else
    ∃ e, construct p S3Client = Some e ∧ run.1 = Threw e ∧
      requests (since w run.2) = [] ∧
      console run.2 = console w ++ [ConsoleError "PutObject failed" e].
Proof.
  cbv zeta. unfold S3Wrapper.createFileInBucket. run_s3.
  destruct (s3Client w); [| destruct (construct p S3Client) as [e |] eqn:Hc];
    cbn [fst snd orb].
  - destruct (reply p _ _) as [r | e] eqn:Hreply;
      [exists (Fulfilled r) | exists (Rejected e)]; cbn [fst snd events console with_events];
      (split_and!; [since_new; by destruct contentType | done | done]).
  - rewrite bool_decide_eq_false_2 by done.
    exists e. cbn [fst snd events console with_events with_console].
    split_and!; [done | done | by since_new | done].
  - rewrite bool_decide_eq_true_2 by done.
    destruct (reply p _ _) as [r | e] eqn:Hreply;
      [exists (Fulfilled r) | exists (Rejected e)];
      cbn [fst snd events console with_events with_s3Client];
      (split_and!; [since_new; by destruct contentType | done | done]).
Qed.

(** ** S3Wrapper.getListOfFileKeys: a page that fails *)

Lemma getS3_returns (p : Platform) (w : World) :
  s3Client w = true ∨ construct p S3Client = None -> (S3Wrapper.getS3 p w).1 = Returned tt.
Proof.
  intros Hclient. run_s3. destruct (s3Client w) eqn:Hs3; [done |].
  destruct Hclient as [| Hc]; [done |]. by rewrite Hc.
Qed.

Lemma whileTruncated_rejected (pages : list Response) (e : Exception) :
  ∀ (budget : nat) (locals : Locals) (p : Platform) (w : World),
  isTruncated locals = true ->
  (∀ i cmd,
     pageRequests (listObjectsParams locals) (pages ++ [emptyResponse]) !! i = Some cmd ->
     reply p (length (requests (events w)) + i) cmd =
       match pages !! i with Some page => Fulfilled page | None => Rejected e end) ->
  Forall (fun page => resp_IsTruncated page = Some true) pages ->
  length pages < budget ->
  (S3Wrapper.whileTruncated budget locals p w).1 = Threw e ∧
  ∃ new, events (S3Wrapper.whileTruncated budget locals p w).2 = events w ++ new ∧
         length (requests new) = S (length pages).
Proof.
  induction pages as [| page pages IH]; intros budget locals p w Htrunc Hreply Hpages Hbudget.
  - destruct budget as [| budget]; [simpl in Hbudget; lia |].
    pose proof (Hreply 0 (ListObjectsV2Command (listObjectsParams locals)) eq_refl) as Hfirst.
    rewrite Nat.add_0_r in Hfirst. cbn [lookup list_lookup] in Hfirst.
    simpl. rewrite Htrunc, bind_run, send_run. unfold S3Wrapper.command. cbv zeta.
    rewrite Hfirst. cbv iota beta. split; [done |]. by eexists.
  - destruct budget as [| budget]; [simpl in Hbudget; lia |].
    apply Forall_cons in Hpages as [Hpage Hpages].
    pose proof (Hreply 0 (ListObjectsV2Command (listObjectsParams locals)) eq_refl) as Hfirst.
    rewrite Nat.add_0_r in Hfirst. cbn [lookup list_lookup] in Hfirst.
    simpl. rewrite Htrunc, bind_run, send_run. unfold S3Wrapper.command. cbv zeta.
    rewrite Hfirst. cbv iota beta.
    set (locals' := {| listObjectsParams := _ |}).
    set (w' := with_events _ w).
    destruct (IH budget locals' p w') as (Hout & new & Hev & Hlen).
    + subst locals'. simpl. by rewrite Hpage.
    + intros i cmd Hcmd.
      assert (length (requests (events w')) + i = length (requests (events w)) + S i) as ->.
      { subst w'. simpl. rewrite requests_app, length_app. simpl. lia. }
      by apply (Hreply (S i)).
    + done.
    + simpl in Hbudget. lia.
    + split; [done |].
      exists (Requested (S3Wrapper.command locals) (Fulfilled page) :: new). split.
      * rewrite Hev. subst w'. simpl. by rewrite <- app_assoc.
      * simpl. by rewrite Hlen.
Qed.

(** X18. When the pages of a listing are served up to some point and the
    request for the next page is rejected, [getListOfFileKeys] throws what
    that request was rejected with: the keys of the pages it had read are not
    returned, and it has issued one request per page read and one more. *)
Theorem getListOfFileKeys_rejected (bucket : string) (prefix : option string)
    (p : Platform) (w : World) (pages : list Response) (e : Exception) (budget : nat) :
  let first := {| Bucket := bucket; MaxKeys := Some 100; Prefix := prefix;
                  ContinuationToken := None |} in
  let run := S3Wrapper.getListOfFileKeys budget bucket prefix p w in
  s3Client w = true ∨ construct p S3Client = None ->
  (∀ i cmd,
     pageRequests first (pages ++ [emptyResponse]) !! i = Some cmd ->
     reply p (length (requests (events w)) + i) cmd =
       match pages !! i with Some page => Fulfilled page | None => Rejected e end) ->
  Forall (fun page => resp_IsTruncated page = Some true) pages ->
  length pages < budget ->
  run.1 = Threw e ∧ length (requests (since w run.2)) = S (length pages).
Proof.
  intros first run Hclient Hreply Hpages Hbudget. subst run.
  unfold S3Wrapper.getListOfFileKeys. fold first.
  set (locals := {| listObjectsParams := first |}).
  rewrite bind_run.
  destruct (getS3_trace p w) as (evs & Hev & Hreq & Hsettles).
  pose proof (getS3_returns p w Hclient) as Hreturns.
  destruct (S3Wrapper.getS3 p w) as [[[] | e' |] w1]; cbn [fst snd] in *; [| done | done].
  assert (length (requests (events w1)) = length (requests (events w))) as Hn.
  { rewrite Hev, requests_app, Hreq. by rewrite app_nil_r. }
  destruct (whileTruncated_rejected pages e budget locals p w1)
    as (Hout & new & Hev' & Hlen); try done.
  { intros i cmd. rewrite Hn. apply Hreply. }
  rewrite Hout. split; [done |].
  erewrite since_app by (rewrite Hev', Hev, <- app_assoc; reflexivity).
  by rewrite requests_app, Hreq.
Qed.

Lemma getListOfFileKeys_rejected_witness :
  let run := S3Wrapper.getListOfFileKeys 5 "bucket" None tornListing fresh in
  resp_IsTruncated firstPage = Some true ∧
  run.1 = Threw slowDown ∧ length (requests (since fresh run.2)) = 2.
Proof.
  split; [reflexivity |].
  apply (getListOfFileKeys_rejected "bucket" None tornListing fresh [firstPage] slowDown 5).
  - right. reflexivity.
  - intros [| [| i]] cmd; simpl; intros [= <-]; reflexivity.
  - repeat constructor.
  - simpl. lia.
Defined.

(** ** S3Wrapper.retrieveSortedFileList: no listing *)

(** X19. When the answer to the listing request has no [Contents],
    [retrieveSortedFileList] returns [undefined], not an empty list; when
    [Contents] is there and nothing in it is kept, it returns the empty list. *)
Theorem retrieveSortedFileList_without_contents (bucket : string) (p : Platform)
    (w : World) (cmd : Command) (answer : Response) :
  let run := S3Wrapper.retrieveSortedFileList bucket p w in
  requests (since w run.2) = [Requested cmd (Fulfilled answer)] ->
  match resp_Contents answer with
  | None => run.1 = Returned None
  | Some listing =>
      List.filter filterFunction listing = [] -> run.1 = Returned (Some [])
  end.
Proof.
  cbv zeta. unfold S3Wrapper.retrieveSortedFileList.
  set (command := ListObjectsV2Command _).
  rewrite bind_run.
  destruct (getS3_trace p w) as (evs & Hev & Hreq & Hsettles).
  destruct (S3Wrapper.getS3 p w) as [[[] | e |] w1]; cbn [fst snd] in *; [| | done].
  2: { rewrite (since_app _ _ _ Hev), Hreq. done. }
  rewrite bind_run, send_run. cbv zeta.
  destruct (reply p _ command) as [r | e]; cbv iota beta; cbn [fst snd ret].
  all: erewrite since_app by (cbn [events with_events]; rewrite Hev, <- app_assoc; reflexivity).
  all: rewrite requests_app, Hreq; cbn.
  2: by intros [=].
  intros [= _ ->].
  destruct (resp_Contents answer) as [listing |]; cbn; [| done].
  by intros ->.
Qed.

Lemma retrieveSortedFileList_without_contents_witness :
  let run := S3Wrapper.retrieveSortedFileList "bucket" obliging fresh in
  requests (since fresh run.2) =
    [Requested (ListObjectsV2Command {| Bucket := "bucket"; MaxKeys := None; Prefix := None;
                                        ContinuationToken := None |})
               (Fulfilled emptyResponse)] ∧
  run.1 = Returned None.
Proof.
  split; [reflexivity |].
  exact (retrieveSortedFileList_without_contents "bucket" obliging fresh _ _ eq_refl).
Defined.

(** ** The filter and the comparison function *)

(** X20. The filter that [filterResultsFiles] builds keeps a file exactly
    when the file has a non-empty key in which the excluded text does not
    occur. Built for the empty text it keeps no file at all, since the empty
    text occurs in every key. *)
Theorem filterResultsFiles_keeps (excludeFilenamesContaining : string) (file : S3Object) :
  (filterResultsFiles excludeFilenamesContaining file = true ↔
     ∃ key, Key file = Some key ∧ key ≠ "" ∧
            ¬ ∃ before after, key = before +:+ excludeFilenamesContaining +:+ after) ∧
  filterResultsFiles "" file = false.
Proof.
  assert (∀ exclude,
            filterResultsFiles exclude file = true ↔
            ∃ key, Key file = Some key ∧ key ≠ "" ∧
                   ¬ ∃ before after, key = before +:+ exclude +:+ after) as Hspec.
  { intros exclude. unfold filterResultsFiles.
    destruct (Key file) as [key |]; [| split; [done | by intros (? & [=] & _)]].
    destruct (String.eqb key "") eqn:Hempty.
    - apply String.eqb_eq in Hempty as ->. split; [done |]. by intros (? & [= <-] & ? & _).
    - apply String.eqb_neq in Hempty.
      rewrite negb_true_iff, <- not_true_iff_false, includes_spec. split.
      + intros Hnot. by exists key.
      + by intros (? & [= <-] & _ & Hnot). }
  split; [apply Hspec |].
  apply not_true_iff_false. rewrite Hspec. intros (key & _ & _ & Hnot).
  apply Hnot. by exists "", key.
Qed.

(** X21. [sortFilesByDate] answers 0 exactly when one of the two dates is
    missing, -1 exactly when both are there and the left one is the later,
    and 1 otherwise: in particular it answers 1 both ways round for two
    objects of the same date, and for an object compared with itself. *)
Theorem sortFilesByDate_answers (left right : S3Object) :
  (sortFilesByDate left right = 0 ↔
     LastModified left = None ∨ LastModified right = None)%Z ∧
  (sortFilesByDate left right = -1 ↔
     ∃ l r, LastModified left = Some l ∧ LastModified right = Some r ∧ r < l)%Z ∧
  (sortFilesByDate left right = 1 ↔
     ∃ l r, LastModified left = Some l ∧ LastModified right = Some r ∧ l ≤ r)%Z ∧
  (is_Some (LastModified left) -> LastModified left = LastModified right ->
   sortFilesByDate left right = 1%Z ∧ sortFilesByDate right left = 1%Z).
Proof.
  unfold sortFilesByDate.
  destruct (LastModified left) as [l |], (LastModified right) as [r |].
  2-4: split_and!; try (split; [done | intros (? & ? & ? & ? & ?); done]);
       try (by intros [? [=]]); try (intros _ [=]); split; auto; by intros [|].
  destruct (r <? l)%Z eqn:Hlt; [apply Z.ltb_lt in Hlt | apply Z.ltb_ge in Hlt].
  - split_and!.
    + split; [done | by intros [|]].
    + split; [by exists l, r | done].
    + split; [done | intros (? & ? & [= <-] & [= <-] & ?); lia].
    + intros _ [= ->]. lia.
  - split_and!.
    + split; [done | by intros [|]].
    + split; [done | intros (? & ? & [= <-] & [= <-] & ?); lia].
    + split; [by exists l, r | done].
    + intros _ [= ->]. by rewrite Z.ltb_irrefl.
Qed.

(** ** S3Wrapper: keys and signed addresses *)

Lemma replacePlus_get (s : string) (i : nat) :
  String.get i (replacePlus s) =
  (fun c => if Ascii.eqb c "+"%char then " "%char else c) <$> String.get i s.
Proof.
  revert i. induction s as [| c s IH]; intros i; [done |].
  destruct i as [| i]; simpl; [done | apply IH].
Qed.

(** X24. [stripS3ObjectKeyOfSpecialChars] decodes the key after it has put a
    space for every plus sign: what is decoded has the length of the key, has
    no plus sign left and is the key at every other place. The operation
    returns what the decoding gives and throws what it throws, and touches
    nothing else. *)
Theorem stripS3ObjectKeyOfSpecialChars_decodes (s3ObjectKey : string)
    (p : Platform) (w : World) :
  ∃ spaced,
    S3Wrapper.stripS3ObjectKeyOfSpecialChars s3ObjectKey p w =
      (match decodeURIComponent p spaced with
       | Fulfilled decoded => Returned decoded
       | Rejected e => Threw e
       end, w) ∧
    String.length spaced = String.length s3ObjectKey ∧
    ∀ i, String.get i spaced ≠ Some "+"%char ∧
         (String.get i s3ObjectKey ≠ Some "+"%char ->
          String.get i spaced = String.get i s3ObjectKey) ∧
         (String.get i s3ObjectKey = Some "+"%char -> String.get i spaced = Some " "%char).
Proof.
  exists (replacePlus s3ObjectKey). split_and!.
  - unfold S3Wrapper.stripS3ObjectKeyOfSpecialChars. rewrite bind_run. unfold ask.
    cbv iota beta. by destruct (decodeURIComponent p _).
  - induction s3ObjectKey as [| c s IH]; [done |]. simpl. by rewrite IH.
  - intros i. rewrite replacePlus_get.
    destruct (String.get i s3ObjectKey) as [c |]; simpl; [| done].
    destruct (Ascii.eqb c "+") eqn:Hc.
    + apply Ascii.eqb_eq in Hc as ->. done.
    + apply Ascii.eqb_neq in Hc. split_and!; [congruence | done | congruence].
Qed.

(** X25. [getSignedUrlForFile] issues no request. With the client in place
    or constructible it has the presigner sign a [GetObject] command for
    ['get'] and a [PutObject] command otherwise, for the bucket and file
    given and for 3600 seconds when no duration is passed, and returns the
    address or throws what the presigner throws. *)
Theorem getSignedUrlForFile_presigns (bucket filename : string) (operationIsGet : bool)
    (expiresSeconds : option nat) (p : Platform) (w : World) :
  let run := S3Wrapper.getSignedUrlForFile bucket filename operationIsGet expiresSeconds p w in
  let command :=
    if operationIsGet then GetObjectCommand bucket filename
    else PutObjectCommand {| put_Bucket := bucket; put_Key := filename; put_Body := None;
                             ContentType := None; ContentEncoding := None |} in
  let expiresIn := match expiresSeconds with Some seconds => seconds | None => 3600 end in
  requests (since w run.2) = [] ∧
  if s3Client w || bool_decide (construct p S3Client = None) then
    run.1 = match getSignedUrl p command expiresIn with
            | Fulfilled url => Returned url
            | Rejected e => Threw e
            end
  else ∃ e, construct p S3Client = Some e ∧ run.1 = Threw e.
Proof.
  cbv zeta. unfold S3Wrapper.getSignedUrlForFile. run_s3.
  destruct (s3Client w); [| destruct (construct p S3Client) as [e |] eqn:Hc];
    cbn [fst snd orb].
  - split; [| by destruct expiresSeconds, (getSignedUrl p _ _)].
    destruct (getSignedUrl p _ _); cbn [fst snd]; by rewrite since_refl.
  - rewrite bool_decide_eq_false_2 by done. split; [by since_new | by exists e].
  - rewrite bool_decide_eq_true_2 by done.
    split; [| by destruct expiresSeconds, (getSignedUrl p _ _)].
    destruct (getSignedUrl p _ _); cbn [fst snd]; by since_new.
Qed.

(** ** The handler: every call is attempted *)

Lemma chunk_single {A} (a : A) : chunk [a] 10 = [[a]].
Proof. reflexivity. Qed.

(** X22. The handler never throws, and a call that fails does not keep the
    later ones from being made: whatever the services answer, it requests the
    record, the tree and the batch of one message, and between the last two
    the upload, unless the client of the object store cannot be constructed. *)
Theorem handler_attempts_all (p : Platform) (w : World) :
  let run := handler p w in
  (∃ response, run.1 = Returned response) ∧
  commands (since w run.2) =
    [ GetItemCommand (TABLE_NAME (env p))
                     {[ "pk" := AttrS "something"; "sk" := AttrS "else" ]};
      OneTableGet "TestModel" {[ "pk" := "test"; "sk" := "test" ]} ] ++
    (if s3Client w || bool_decide (construct p S3Client = None) then
       [ PutObjectCommand {| put_Bucket := BUCKET_NAME (env p); put_Key := "file.txt";
                             put_Body := Some "some text";
                             ContentType := Some "text/plain"; ContentEncoding := None |} ]
     else []) ++
    [ SendMessageBatchCommand
        [ {| Id := "msg-0"; MessageBody := "hello"; MessageGroupId := "group1" |} ]
        (QUEUE_URL (env p)) ].
Proof.
  cbv zeta.
  unfold handler, getRecord, TestDao.getTree, S3Wrapper.createFileInBucket,
    SqsWrapper.writeMessageBatchToFifoQueue.
  rewrite chunk_single.
  unfold SqsWrapper.forEachChunk, SqsWrapper.writeMessageBatch. run_s3.
  destruct (reply p (length (requests (events w))) _) as [r1 | e1];
    cbn [fst snd events s3Client with_events with_console with_s3Client].
  all: destruct (reply p _ (OneTableGet _ _)) as [r2 | e2];
    cbn [fst snd events s3Client with_events with_console with_s3Client].
  all: destruct (s3Client w); [| destruct (construct p S3Client) as [e |] eqn:Hc];
    cbn [fst snd events s3Client with_events with_console with_s3Client orb];
    rewrite ?bool_decide_eq_true_2, ?bool_decide_eq_false_2 by done.
  all: try destruct (reply p _ (PutObjectCommand _)) as [r3 | e3];
    cbn [fst snd events s3Client with_events with_console with_s3Client].
  all: destruct (reply p _ (SendMessageBatchCommand _ _)) as [r4 | e4];
    cbn [fst snd events s3Client with_events with_console with_s3Client].
  all: case_decide; cbn [fst snd events with_events with_console with_s3Client].
  all: (split; [by eexists | since_new; reflexivity]).
Qed.

(** X23. The top level of the handler's module swallows whatever the
    warm-up call throws: loading the module always goes through, with at
    most one request. *)
Theorem onLoad_swallows (p : Platform) (w : World) :
  let run := onLoad p w in
  run.1 = Returned tt ∧ length (requests (since w run.2)) ≤ 1.
Proof.
  cbv zeta. split.
  - unfold onLoad. rewrite try_catch_run, bind_run.
    pose proof (perform_settles (H := TestDynDb) (Ssm_getParamValue "someparam" None)
                  ltac:(done) p w) as Hsettles.
    cbn [perform] in Hsettles. unfold void in Hsettles. rewrite bind_run in Hsettles.
    by destruct (SsmWrapper.getParamValue "someparam" None p w) as [[v | e |] w1].
  - assert (AtMost 1 onLoad) as Hone.
    { unfold onLoad, SsmWrapper.getParamValue, SsmWrapper.getParam, SsmWrapper.init,
        SsmWrapper.cache_get, SsmWrapper.cache_set.
      atmost. }
    destruct (Hone p w) as (new & Hev & Hlen). by rewrite (since_app _ _ _ Hev).
Qed.

(** ** S3Wrapper.getFileByName and S3Wrapper.deleteFileByName *)

(** X26. [getFileByName] requests nothing but the object under the name in
    the bucket, once at most. When the request is answered, the buffer it
    returns is the chunks of the body put together in the order they came; a
    body that fails gives its error and none of the chunks read so far, and
    an answer without a body gives a [TypeError]. A rejected request is
    thrown as it is, and the console is left alone throughout. *)
Theorem getFileByName_cases (bucket name : string) (p : Platform) (w : World) :
  let run := S3Wrapper.getFileByName bucket name p w in
  commands (since w run.2) `sublist_of` [GetObjectCommand bucket name] ∧
  console run.2 = console w ∧
  (∀ cmd answer, Requested cmd answer ∈ since w run.2 ->
     run.1 = match answer with
             | Rejected e => Threw e
             | Fulfilled data =>
                 match resp_Body data with
                 | None =>
                     Threw (TypeError "Cannot read properties of undefined (reading 'on')")
                 | Some stream =>
                     match failure stream with
                     | Some e => Threw e
                     | None => Returned (String.concat "" (chunks stream))
                     end
                 end
             end).
Proof.
  cbv zeta. unfold S3Wrapper.getFileByName, S3Wrapper.readAll. run_s3.
  destruct (s3Client w); [| destruct (construct p S3Client) as [e |]]; cbn [fst snd].
  all: try destruct (reply p _ _) as [data | e'] eqn:Hreply; cbn [fst snd].
  all: try destruct (resp_Body data) as [stream |] eqn:HBody; cbn [fst snd].
  all: try destruct (failure stream) as [e'' |] eqn:Hfailure; cbn [fst snd].
  all: since_new.
  all: split_and!; [by repeat constructor | done |].
  all: intros cmd answer Hin;
    repeat (apply elem_of_cons in Hin as [Hin | Hin]; [injection Hin as -> -> || discriminate Hin |]);
    try (by apply elem_of_nil in Hin); try done.
  all: by rewrite ?HBody, ?Hfailure.
Qed.

(** X27. [deleteFileByName] hands back the promise of its one request: what
    it requests is the deletion of the name in the bucket, the answer is
    returned as it came and a rejection is thrown as it is. Nothing is
    written to the console, also when the client cannot be constructed. *)
Theorem deleteFileByName_passes_answer (bucket name : string) (p : Platform) (w : World) :
  let run := S3Wrapper.deleteFileByName bucket name p w in
  commands (since w run.2) `sublist_of` [DeleteObjectCommand bucket name] ∧
  console run.2 = console w ∧
  (∀ cmd answer, Requested cmd answer ∈ since w run.2 ->
     run.1 = match answer with
             | Rejected e => Threw e
             | Fulfilled data => Returned data
             end) ∧
  (requests (since w run.2) = [] ->
     s3Client w = false ∧ ∃ e, construct p S3Client = Some e ∧ run.1 = Threw e).
Proof.
  cbv zeta. unfold S3Wrapper.deleteFileByName. run_s3.
  destruct (s3Client w); [| destruct (construct p S3Client) as [e |] eqn:Hc]; cbn [fst snd].
  all: try destruct (reply p _ _) as [data | e'] eqn:Hreply; cbn [fst snd].
  all: since_new.
  all: split_and!; [by repeat constructor | done | |].
  all: try (intros cmd answer Hin;
    repeat (apply elem_of_cons in Hin as [Hin | Hin]; [injection Hin as -> -> || discriminate Hin |]);
    try (by apply elem_of_nil in Hin); done).
  all: try (intros Hnone; discriminate Hnone).
  all: intros _; split; [done | by eexists].
Qed.
